(** * kinematics2d: planar vectors and kinematic states

    A shallow embedding of [kinematics2d/vector2d.py] and
    [kinematics2d/kinematics.py], and the properties of the two classes.

    The Python code computes on float64.  Two readings of float64 are used:

    - [Ideal]: a float64 is a real number and every operation is exact.  The
      algebraic laws of the library (composition and decomposition of frames,
      the motion update, the stopping distances, the angle between vectors)
      are stated and proved there.
    - [Binary64]: a float64 is an IEEE-754 binary64 (Rocq's primitive floats),
      with signed zeros, infinities, NaN, overflow and underflow.  The
      methods whose behaviour depends on these are embedded there a second
      time.

    Python exceptions are values of [result]. *)

From Stdlib Require Import Reals Lra Psatz ZArith Bool.
From Stdlib Require Import List Lia.
From Stdlib Require Floats.

(** ** Exceptions *)

Inductive exn : Set :=
| ZeroDivisionError
| OverflowError
| ValueError.

Inductive result (A : Type) : Type :=
| Ok (a : A)
| Raise (e : exn).

Arguments Ok {A} a.
Arguments Raise {A} e.

(** An exception raised by [r] ends the computation. *)
Definition bind {A B : Type} (r : result A) (k : A -> result B) : result B :=
  match r with
  | Ok a => k a
  | Raise e => Raise e
  end.

Notation "x <- r ;; k" := (bind r (fun x => k))
  (at level 61, r at next level, right associativity).

(** ** float64 as real numbers *)

Module Ideal.

Local Open Scope R_scope.

(** *** The builtins and the numpy and math functions the code calls *)

(** A numpy array of two float64, [np.array([x, y])]. *)
Definition ndarray : Type := (R * R)%type.

Definition np_add (a b : ndarray) : ndarray := (fst a + fst b, snd a + snd b).
Definition np_sub (a b : ndarray) : ndarray := (fst a - fst b, snd a - snd b).
Definition np_neg (a : ndarray) : ndarray := (- fst a, - snd a).
Definition np_mul (a : ndarray) (s : R) : ndarray := (fst a * s, snd a * s).

(** [array / scalar]: numpy divides elementwise and never raises (a zero
    divisor gives a warning).  On real numbers the quotient by zero is
    whatever [Rdiv] gives, and no result below depends on it. *)
Definition np_div (a : ndarray) (s : R) : ndarray := (fst a / s, snd a / s).

(** [np.dot] of two vectors, and of a 2x2 matrix (two rows) with a vector. *)
Definition np_dot (a b : ndarray) : R := fst a * fst b + snd a * snd b.
Definition np_matvec (m : ndarray * ndarray) (a : ndarray) : ndarray :=
  (np_dot (fst m) a, np_dot (snd m) a).

(** [np.linalg.norm] of a vector. *)
Definition np_norm (a : ndarray) : R := sqrt (np_dot a a).

(** Round to the nearest integer, ties to the even one. *)
Definition rint (r : R) : Z :=
  let n := Int_part r in
  let f := frac_part r in
  if Rlt_dec f (/ 2) then n
  else if Rlt_dec (/ 2) f then (n + 1)%Z
  else if Z.even n then n else (n + 1)%Z.

(** [round(r, ndigits)]. *)
Definition round (r : R) (ndigits : nat) : R :=
  IZR (rint (r * 10 ^ ndigits)) / 10 ^ ndigits.

(** [math.acos] raises [ValueError] outside [-1, 1]. *)
Definition math_acos (r : R) : result R :=
  if Rlt_dec r (-1) then Raise ValueError
  else if Rlt_dec 1 r then Raise ValueError
  else Ok (acos r).

(** [a == b], [a != b] and [a > b] on floats. *)
Definition float_eq (a b : R) : bool := if Req_dec_T a b then true else false.
Definition float_ne (a b : R) : bool := negb (float_eq a b).
Definition float_gt (a b : R) : bool := if Rlt_dec b a then true else false.

(** [a / b] on Python floats raises [ZeroDivisionError] on a zero divisor. *)
Definition float_truediv (a b : R) : result R :=
  if float_eq b 0 then Raise ZeroDivisionError else Ok (a / b).

(** [math.atan2(y, x)]: the angle of the point (x, y) seen from the origin,
    by the quadrant of the point; 0 at the origin. *)
Definition math_atan2 (y x : R) : R :=
  if float_gt x 0 then atan (y / x)
  else if float_gt 0 x then
    if float_gt 0 y then atan (y / x) - PI else atan (y / x) + PI
  else if float_gt y 0 then PI / 2
  else if float_gt 0 y then - (PI / 2)
  else 0.

(** *** class Vector2D *)

Module Vector2D.

Record t : Type := mk { _array : ndarray }.

(** [np.array([x, y], dtype="Float64")]: the two numbers, as float64. *)
Definition init (x y : R) : t := {| _array := (x, y) |}.

Definition from_array (array : ndarray) : t := init (fst array) (snd array).

Definition from_copy (source : t) : t := from_array (_array source).

Definition zeros : t := init 0 0.

Definition x (self : t) : R := fst (_array self).
Definition y (self : t) : R := snd (_array self).

Definition add (self other : t) : t :=
  from_array (np_add (_array self) (_array other)).

Definition sub (self other : t) : t :=
  from_array (np_sub (_array self) (_array other)).

Definition mul (self : t) (other : R) : t :=
  from_array (np_mul (_array self) other).

Definition truediv (self : t) (other : R) : t :=
  from_array (np_div (_array self) other).

Definition neg (self : t) : t := from_array (np_neg (_array self)).

Definition magnitude (self : t) : R := np_norm (_array self).

Definition abs (self : t) : R := magnitude self.

Definition radd (self other : t) : t := add self other.

Definition rsub (self other : t) : t :=
  from_array (np_sub (_array other) (_array self)).

Definition eq (self other : t) : bool :=
  float_eq (fst (_array self)) (fst (_array other))
  && float_eq (snd (_array self)) (snd (_array other)).

Definition ne (self other : t) : bool :=
  float_ne (fst (_array self)) (fst (_array other))
  || float_ne (snd (_array self)) (snd (_array other)).

Definition angle (self : t) : R :=
  math_atan2 (snd (_array self)) (fst (_array self)).

Definition dot (self other : t) : R := np_dot (_array self) (_array other).

(** On real numbers the cosine is between -1 and 1, and [math.acos] cannot
    raise; on float64 it can, see [Binary64.Vector2D.angle_from]. *)
Definition angle_from (self other : t) : result R :=
  if float_eq (abs self) 0 || float_eq (abs other) 0 then Ok 0
  else
    let cos := dot other self / (abs other * abs self) in
    math_acos (round cos 4).

Definition rotated (self : t) (angle : R) : t :=
  let rotation_matrix :=
    ((cos angle, -1 * sin angle),
     (sin angle, cos angle)) in
  from_array (np_matvec rotation_matrix (_array self)).

(** On real numbers the magnitude is zero for the zero vector only; the
    float64 magnitude also overflows and underflows, see
    [Binary64.Vector2D.normalized]. *)
Definition normalized (self : t) : t :=
  let magnitude := magnitude self in
  if float_ne magnitude 0 then truediv self magnitude else zeros.

Definition projected_to (self other : t) : t :=
  if float_eq (abs other) 0 then zeros
  else truediv (mul (normalized other) (dot self other)) (abs other).

End Vector2D.

(** *** class Pose *)

Module Pose.

(** Modelled from the spec: [pose.py] is not among the sources.  A pose is a
    position and an orientation, and [Pose.zeros()] is
    [(Vector.zeros(), 0.0)]. *)
Record t : Type := mk { position : Vector2D.t; orientation : R }.

Definition zeros : t := mk Vector2D.zeros 0.

End Pose.

(** *** class Kinematics *)

Module Kinematics.

Record t : Type := mk {
  _position : Vector2D.t;
  _orientation : R;
  _velocity : Vector2D.t;
  _rotation : R
}.

Definition init (position : Vector2D.t) (orientation : R)
                (velocity : Vector2D.t) (rotation : R) : t :=
  {| _position := Vector2D.from_copy position;
     _orientation := orientation;
     _velocity := Vector2D.from_copy velocity;
     _rotation := rotation |}.

Definition from_pose (pose : Pose.t) (velocity : Vector2D.t) (rotation : R) : t :=
  init (Pose.position pose) (Pose.orientation pose) velocity rotation.

Definition position (self : t) : Vector2D.t := _position self.
Definition orientation (self : t) : R := _orientation self.
Definition velocity (self : t) : Vector2D.t := _velocity self.
Definition rotation (self : t) : R := _rotation self.

Definition from_copy (source : t) : t :=
  init (Vector2D.from_copy (position source))
       (orientation source)
       (Vector2D.from_copy (velocity source))
       (rotation source).

Definition zeros : t := from_pose Pose.zeros Vector2D.zeros 0.

Definition pose (self : t) : Pose.t :=
  Pose.mk (_position self) (_orientation self).

Definition add (self other : t) : t :=
  init (Vector2D.add (position self)
                     (Vector2D.rotated (position other) (orientation self)))
       (orientation self + orientation other)
       (Vector2D.add (velocity self)
                     (Vector2D.rotated (velocity other) (orientation self)))
       (rotation self + rotation other).

Definition sub (self other : t) : t :=
  init (Vector2D.rotated (Vector2D.sub (position self) (position other))
                         (- orientation other))
       (orientation self - orientation other)
       (Vector2D.rotated (Vector2D.sub (velocity self) (velocity other))
                         (- orientation other))
       (rotation self - rotation other).

Definition updated (self : t) (delta_time : R) : t :=
  let delta_orientation := rotation self * delta_time in
  let new_orientation := orientation self + delta_orientation in
  let delta_position := Vector2D.mul (velocity self) delta_time in
  let new_position :=
    Vector2D.add (position self)
                 (Vector2D.rotated delta_position delta_orientation) in
  init new_position new_orientation (velocity self) (rotation self).

(** The real-number reading: no overflow or underflow of the magnitude and
    of its square, for which see [Binary64.Kinematics.delta_position_to_stop]. *)
Definition delta_position_to_stop (self : t) (max_linear_decel_magnitude : R)
  : Vector2D.t :=
  Vector2D.truediv
    (Vector2D.mul (Vector2D.normalized (velocity self))
                  (Vector2D.abs (velocity self) ^ 2))
    (2 * max_linear_decel_magnitude).

(** The real-number reading: the square of a real number cannot overflow, so
    of the two exceptions of the Python code only the [ZeroDivisionError] of
    [/] is here; the [OverflowError] of [**] is in
    [Binary64.Kinematics.delta_orientation_to_stop]. *)
Definition delta_orientation_to_stop (self : t) (max_angular_decel_magnitude : R)
  : result R :=
  value <- float_truediv (Rabs (rotation self) ^ 2)
                         (2 * max_angular_decel_magnitude) ;;
  Ok (if float_gt (rotation self) 0 then value else - value).

End Kinematics.

End Ideal.

(** ** float64 as IEEE-754 binary64 *)

Module Binary64.

Import Floats.
Local Open Scope float_scope.

(** In this module every method returns a [result]: [Ok] with the value the
    Python method returns, or [Raise] with the exception it raises. *)

Definition ndarray : Type := (float * float)%type.

(** [array / scalar]: numpy divides elementwise by the IEEE-754 rules and
    does not raise (a zero divisor gives a [RuntimeWarning]). *)
Definition np_div (a : ndarray) (s : float) : ndarray := (fst a / s, snd a / s).

(** [a / b] on Python floats raises [ZeroDivisionError] on a zero divisor,
    of either sign. *)
Definition float_truediv (a b : float) : result float :=
  if b =? 0 then Raise ZeroDivisionError else Ok (a / b).

(** [a ** 2] on a Python float, by the cases of CPython's [float_pow]: NaN
    and the infinities first, then zero, then the C library's [pow], an
    overflow of which raises [OverflowError].  [pow(a, 2.0)] is taken as the
    correctly rounded square. *)
Definition float_pow2 (a : float) : result float :=
  if is_nan a then Ok a
  else if is_infinity a then Ok (abs a)
  else if a =? 0 then Ok 0
  else
    let ix := a * a in
    if is_infinity ix then Raise OverflowError else Ok ix.

(** [array * scalar] and [np.dot] of two vectors, by the IEEE-754 rules. *)
Definition np_mul (a : ndarray) (s : float) : ndarray := (fst a * s, snd a * s).
Definition np_dot (a b : ndarray) : float := fst a * fst b + snd a * snd b.

(** [np.linalg.norm] of a vector: the square root of its dot product with
    itself.  The squares can overflow to infinity and underflow to zero. *)
Definition np_norm (a : ndarray) : float := sqrt (np_dot a a).

(** [a ** 2] on a numpy float64, which [abs(vector)] is: numpy does not raise
    on overflow.  The power is taken as the correctly rounded square. *)
Definition np_pow2 (a : float) : float := a * a.

(** [np.rint]: the nearest integer, ties to the even one, with the sign of
    the argument.  Below 2^52 adding and subtracting 2^52 rounds to an
    integer; from 2^52 on every float is an integer. *)
Definition rint (a : float) : float :=
  if abs a <? 0x1p+52 then
    let r := (abs a + 0x1p+52) - 0x1p+52 in
    if get_sign a then - r else r
  else a.

(** [round(a, 4)] on a numpy float64: numpy multiplies by 10^4, rounds to an
    integer and divides by 10^4. *)
Definition round4 (a : float) : float := rint (a * 10000) / 10000.

(** [math.acos]: NaN on NaN, [ValueError] outside [-1, 1], and otherwise the
    value of the C library's [acos], which is an argument here. *)
Definition math_acos (acos : float -> float) (a : float) : result float :=
  if is_nan a then Ok a
  else if (a <? -1) || (1 <? a) then Raise ValueError
  else Ok (acos a).

Module Vector2D.

Record t : Type := mk { _array : ndarray }.

Definition init (x y : float) : t := {| _array := (x, y) |}.

Definition from_array (array : ndarray) : t := init (fst array) (snd array).

Definition from_copy (source : t) : t := from_array (_array source).

Definition x (self : t) : float := fst (_array self).
Definition y (self : t) : float := snd (_array self).

Definition truediv (self : t) (other : float) : result t :=
  Ok (from_array (np_div (_array self) other)).

Definition zeros : t := init 0 0.

Definition mul (self : t) (other : float) : result t :=
  Ok (from_array (np_mul (_array self) other)).

Definition magnitude (self : t) : result float := Ok (np_norm (_array self)).

Definition abs (self : t) : result float := magnitude self.

Definition dot (self other : t) : result float :=
  Ok (np_dot (_array self) (_array other)).

Definition angle_from (acos : float -> float) (self other : t) : result float :=
  abs_self <- abs self ;;
  if abs_self =? 0 then Ok 0
  else
    abs_other <- abs other ;;
    if abs_other =? 0 then Ok 0
    else
      dot <- dot other self ;;
      abs_other <- abs other ;;
      abs_self <- abs self ;;
      let cos := dot / (abs_other * abs_self) in
      math_acos acos (round4 cos).

Definition normalized (self : t) : result t :=
  magnitude <- magnitude self ;;
  if negb (magnitude =? 0) then truediv self magnitude else Ok zeros.

Definition eq (self other : t) : result bool :=
  Ok ((fst (_array self) =? fst (_array other))
      && (snd (_array self) =? snd (_array other))).

Definition ne (self other : t) : result bool :=
  Ok (negb (fst (_array self) =? fst (_array other))
      || negb (snd (_array self) =? snd (_array other))).

End Vector2D.

Module Kinematics.

Record t : Type := mk {
  _position : Vector2D.t;
  _orientation : float;
  _velocity : Vector2D.t;
  _rotation : float
}.

Definition init (position : Vector2D.t) (orientation : float)
                (velocity : Vector2D.t) (rotation : float) : t :=
  {| _position := Vector2D.from_copy position;
     _orientation := orientation;
     _velocity := Vector2D.from_copy velocity;
     _rotation := rotation |}.

Definition velocity (self : t) : Vector2D.t := _velocity self.

Definition rotation (self : t) : float := _rotation self.

Definition delta_position_to_stop (self : t) (max_linear_decel_magnitude : float)
  : result Vector2D.t :=
  normalized <- Vector2D.normalized (velocity self) ;;
  magnitude <- Vector2D.abs (velocity self) ;;
  scaled <- Vector2D.mul normalized (np_pow2 magnitude) ;;
  Vector2D.truediv scaled (2 * max_linear_decel_magnitude).

Definition delta_orientation_to_stop (self : t) (max_angular_decel_magnitude : float)
  : result float :=
  square <- float_pow2 (abs (rotation self)) ;;
  value <- float_truediv square (2 * max_angular_decel_magnitude) ;;
  Ok (if 0 <? rotation self then value else - value).

End Kinematics.

End Binary64.

(** ** Objects and references

    The classes have setters, and a Python variable holds a reference: two
    variables can name one object.  Here the vectors and the kinematics live
    in a heap and the methods are heap transformers.  A [Vector2D] object
    creates its numpy array in its constructor and never replaces it, so the
    object and its array are one cell; [self._array[0] = value] writes that
    cell in place.  Numbers are read as real numbers, as in [Ideal].  A method
    answers [None] only on a reference that was never allocated. *)

Module Heap.

Import ListNotations.
Local Open Scope R_scope.

Definition ref : Set := nat.

(** The attributes of a [Kinematics] object. *)
Record kinematics : Type := mk_kinematics {
  _position : ref;
  _orientation : R;
  _velocity : ref;
  _rotation : R
}.

Record heap : Type := mk_heap {
  arrays : list Ideal.ndarray;
  objects : list kinematics
}.

Definition M (A : Type) : Type := heap -> option (A * heap).

Definition ret {A : Type} (a : A) : M A := fun h => Some (a, h).

Definition and_then {A B : Type} (m : M A) (k : A -> M B) : M B :=
  fun h => match m h with
           | Some (a, h') => k a h'
           | None => None
           end.

Declare Scope heap_scope.
Delimit Scope heap_scope with heap.
Notation "x <- m ;; k" := (and_then m (fun x => k))
  (at level 61, m at next level, right associativity) : heap_scope.
Local Open Scope heap_scope.

Fixpoint update {A : Type} (l : list A) (n : nat) (a : A) : option (list A) :=
  match l, n with
  | [], _ => None
  | _ :: l', O => Some (a :: l')
  | b :: l', S n' => option_map (cons b) (update l' n' a)
  end.

(** The heap with one more array, at the reference [length (arrays h)]. *)
Definition grown (h : heap) (a : Ideal.ndarray) : heap :=
  mk_heap (arrays h ++ [a]) (objects h).

Definition new_array (a : Ideal.ndarray) : M ref :=
  fun h => Some (length (arrays h), grown h a).

Definition read_array (r : ref) : M Ideal.ndarray :=
  fun h => option_map (fun a => (a, h)) (nth_error (arrays h) r).

Definition write_array (r : ref) (a : Ideal.ndarray) : M unit :=
  fun h => option_map (fun l => (tt, mk_heap l (objects h))) (update (arrays h) r a).

Definition new_object (k : kinematics) : M ref :=
  fun h => Some (length (objects h), mk_heap (arrays h) (objects h ++ [k])).

Definition read_object (r : ref) : M kinematics :=
  fun h => option_map (fun k => (k, h)) (nth_error (objects h) r).

Definition write_object (r : ref) (k : kinematics) : M unit :=
  fun h => option_map (fun l => (tt, mk_heap (arrays h) l)) (update (objects h) r k).

Module Vector2D.

Definition init (x y : R) : M ref := new_array (x, y).

Definition from_array (array : Ideal.ndarray) : M ref :=
  init (fst array) (snd array).

Definition from_copy (source : ref) : M ref :=
  array <- read_array source ;;
  from_array array.

Definition zeros : M ref := init 0 0.

Definition x (self : ref) : M R :=
  array <- read_array self ;;
  ret (fst array).

Definition set_x (self : ref) (value : R) : M unit :=
  array <- read_array self ;;
  write_array self (value, snd array).

Definition y (self : ref) : M R :=
  array <- read_array self ;;
  ret (snd array).

Definition set_y (self : ref) (value : R) : M unit :=
  array <- read_array self ;;
  write_array self (fst array, value).

Definition add (self other : ref) : M ref :=
  a <- read_array self ;;
  b <- read_array other ;;
  from_array (Ideal.np_add a b).

Definition sub (self other : ref) : M ref :=
  a <- read_array self ;;
  b <- read_array other ;;
  from_array (Ideal.np_sub a b).

Definition mul (self : ref) (other : R) : M ref :=
  a <- read_array self ;;
  from_array (Ideal.np_mul a other).

Definition rotated (self : ref) (angle : R) : M ref :=
  let rotation_matrix :=
    ((cos angle, -1 * sin angle),
     (sin angle, cos angle)) in
  a <- read_array self ;;
  from_array (Ideal.np_matvec rotation_matrix a).

End Vector2D.

Module Kinematics.

Definition init (position : ref) (orientation : R) (velocity : ref) (rotation : R)
  : M ref :=
  p <- Vector2D.from_copy position ;;
  v <- Vector2D.from_copy velocity ;;
  new_object {| _position := p; _orientation := orientation;
                _velocity := v; _rotation := rotation |}.

Definition position (self : ref) : M ref :=
  k <- read_object self ;; ret (_position k).

Definition set_position (self : ref) (value : ref) : M unit :=
  k <- read_object self ;;
  write_object self {| _position := value; _orientation := _orientation k;
                       _velocity := _velocity k; _rotation := _rotation k |}.

Definition orientation (self : ref) : M R :=
  k <- read_object self ;; ret (_orientation k).

Definition set_orientation (self : ref) (value : R) : M unit :=
  k <- read_object self ;;
  write_object self {| _position := _position k; _orientation := value;
                       _velocity := _velocity k; _rotation := _rotation k |}.

Definition velocity (self : ref) : M ref :=
  k <- read_object self ;; ret (_velocity k).

Definition set_velocity (self : ref) (value : ref) : M unit :=
  k <- read_object self ;;
  write_object self {| _position := _position k; _orientation := _orientation k;
                       _velocity := value; _rotation := _rotation k |}.

Definition rotation (self : ref) : M R :=
  k <- read_object self ;; ret (_rotation k).

Definition set_rotation (self : ref) (value : R) : M unit :=
  k <- read_object self ;;
  write_object self {| _position := _position k; _orientation := _orientation k;
                       _velocity := _velocity k; _rotation := value |}.

Definition from_copy (source : ref) : M ref :=
  p <- position source ;;
  p' <- Vector2D.from_copy p ;;
  o <- orientation source ;;
  v <- velocity source ;;
  v' <- Vector2D.from_copy v ;;
  r <- rotation source ;;
  init p' o v' r.

Definition add (self other : ref) : M ref :=
  sp <- position self ;;
  op <- position other ;;
  so <- orientation self ;;
  rp <- Vector2D.rotated op so ;;
  p <- Vector2D.add sp rp ;;
  so' <- orientation self ;;
  oo <- orientation other ;;
  sv <- velocity self ;;
  ov <- velocity other ;;
  so'' <- orientation self ;;
  rv <- Vector2D.rotated ov so'' ;;
  v <- Vector2D.add sv rv ;;
  sr <- rotation self ;;
  or <- rotation other ;;
  init p (so' + oo) v (sr + or).

Definition sub (self other : ref) : M ref :=
  sp <- position self ;;
  op <- position other ;;
  dp <- Vector2D.sub sp op ;;
  oo <- orientation other ;;
  p <- Vector2D.rotated dp (- oo) ;;
  so <- orientation self ;;
  oo' <- orientation other ;;
  sv <- velocity self ;;
  ov <- velocity other ;;
  dv <- Vector2D.sub sv ov ;;
  oo'' <- orientation other ;;
  v <- Vector2D.rotated dv (- oo'') ;;
  sr <- rotation self ;;
  or <- rotation other ;;
  init p (so - oo') v (sr - or).

Definition updated (self : ref) (delta_time : R) : M ref :=
  r <- rotation self ;;
  let delta_orientation := r * delta_time in
  o <- orientation self ;;
  let new_orientation := o + delta_orientation in
  v <- velocity self ;;
  delta_position <- Vector2D.mul v delta_time ;;
  p <- position self ;;
  rotated <- Vector2D.rotated delta_position delta_orientation ;;
  new_position <- Vector2D.add p rotated ;;
  v' <- velocity self ;;
  r' <- rotation self ;;
  init new_position new_orientation v' r'.

End Kinematics.

(** What a reference stands for: the vector, or the kinematics, read off the
    heap as a value of [Ideal]. *)
Definition vector_at (h : heap) (r : ref) : option Ideal.Vector2D.t :=
  option_map Ideal.Vector2D.mk (nth_error (arrays h) r).

Definition kinematics_at (h : heap) (r : ref) : option Ideal.Kinematics.t :=
  match nth_error (objects h) r with
  | Some k =>
      match vector_at h (_position k), vector_at h (_velocity k) with
      | Some p, Some v => Some (Ideal.Kinematics.mk p (_orientation k) v (_rotation k))
      | _, _ => None
      end
  | None => None
  end.

End Heap.

(** * Properties *)

(** ** On real numbers *)

Module IdealFacts.
Import Ideal.
Local Open Scope R_scope.

Lemma float_eq_true (a b : R) : float_eq a b = true <-> a = b.
Proof. unfold float_eq. destruct (Req_dec_T a b); split; congruence. Qed.

Lemma float_eq_false (a b : R) : float_eq a b = false <-> a <> b.
Proof. unfold float_eq. destruct (Req_dec_T a b); split; congruence. Qed.

Lemma float_gt_true (a b : R) : float_gt a b = true <-> b < a.
Proof. unfold float_gt. destruct (Rlt_dec b a); split; congruence. Qed.

Lemma float_gt_false (a b : R) : float_gt a b = false <-> a <= b.
Proof. unfold float_gt. destruct (Rlt_dec b a); split; (congruence || lra). Qed.

(** *** Rounding *)

Lemma Int_part_bounds (r : R) : IZR (Int_part r) <= r < IZR (Int_part r) + 1.
Proof. destruct (base_Int_part r). lra. Qed.

Lemma rint_cases (r : R) :
  (rint r = Int_part r /\ frac_part r <= / 2) \/
  (rint r = (Int_part r + 1)%Z /\ / 2 <= frac_part r).
Proof.
  unfold rint.
  destruct (Rlt_dec (frac_part r) (/ 2)) as [Hlt | Hge]; [left; split; [reflexivity | lra] |].
  destruct (Rlt_dec (/ 2) (frac_part r)) as [Hgt | Hle]; [right; split; [reflexivity | lra] |].
  destruct (Z.even (Int_part r)); [left | right]; split; try reflexivity; lra.
Qed.

Lemma rint_IZR (k : Z) : rint (IZR k) = k.
Proof.
  assert (Hk : Int_part (IZR k) = k).
  { pose proof (Int_part_bounds (IZR k)) as [Hlo Hhi].
    apply le_IZR in Hlo.
    rewrite <- plus_IZR in Hhi. apply lt_IZR in Hhi. lia. }
  unfold rint, frac_part. rewrite Hk.
  destruct (Rlt_dec (IZR k - IZR k) (/ 2)); [reflexivity | lra].
Qed.

Lemma rint_between (lo hi : Z) (r : R) :
  IZR lo <= r <= IZR hi -> (lo <= rint r <= hi)%Z.
Proof.
  intros [Hlo Hhi].
  pose proof (Int_part_bounds r) as [Hfl Hce].
  assert (Hn1 : (lo <= Int_part r)%Z).
  { assert (IZR lo < IZR (Int_part r + 1)) by (rewrite plus_IZR; lra).
    apply lt_IZR in H. lia. }
  assert (Hn2 : (Int_part r <= hi)%Z) by (apply le_IZR; lra).
  destruct (rint_cases r) as [[-> _] | [-> Hf]]; [lia |].
  split; [lia |].
  unfold frac_part in Hf.
  assert (IZR (Int_part r) < IZR hi) by lra.
  apply lt_IZR in H. lia.
Qed.

Lemma round_unit_interval (c : R) : -1 <= c <= 1 -> -1 <= round c 4 <= 1.
Proof.
  intros Hc. unfold round.
  assert (H : (-10000 <= rint (c * 10 ^ 4) <= 10000)%Z).
  { apply rint_between. simpl. lra. }
  destruct H as [Hlo Hhi]. apply IZR_le in Hlo, Hhi.
  set (n := IZR (rint (c * 10 ^ 4))) in *.
  replace (10 ^ 4) with 10000 by (simpl; lra).
  lra.
Qed.

Lemma round_IZR (k : Z) (n : nat) : round (IZR k) n = IZR k.
Proof.
  unfold round.
  assert (H10 : 10 ^ n <> 0) by (apply pow_nonzero; lra).
  replace (IZR k * 10 ^ n) with (IZR (k * 10 ^ Z.of_nat n)).
  - rewrite rint_IZR, mult_IZR.
    rewrite <- pow_IZR. field. exact H10.
  - rewrite mult_IZR, <- pow_IZR. reflexivity.
Qed.

(** *** Vectors *)

(** Unfold the vector operations down to arithmetic on the two components. *)
Ltac vector_unfold :=
  unfold Vector2D.add, Vector2D.sub, Vector2D.mul, Vector2D.truediv,
    Vector2D.neg, Vector2D.rotated, Vector2D.dot, Vector2D.from_copy,
    Vector2D.from_array, Vector2D.zeros, Vector2D.init, Vector2D.x, Vector2D.y,
    np_add, np_sub, np_mul, np_div, np_neg, np_matvec, np_dot in *;
  simpl in *.

Lemma vector_eta (v : Vector2D.t) : Vector2D.init (Vector2D.x v) (Vector2D.y v) = v.
Proof. destruct v as [[vx vy]]. reflexivity. Qed.

Lemma from_copy_id (v : Vector2D.t) : Vector2D.from_copy v = v.
Proof. apply vector_eta. Qed.

Lemma vector_ext (v w : Vector2D.t) :
  Vector2D.x v = Vector2D.x w -> Vector2D.y v = Vector2D.y w -> v = w.
Proof.
  destruct v as [[vx vy]], w as [[wx wy]].
  unfold Vector2D.x, Vector2D.y. simpl. intros -> ->. reflexivity.
Qed.

Lemma dot_self_nonneg (v : Vector2D.t) : 0 <= Vector2D.dot v v.
Proof. destruct v as [[vx vy]]. vector_unfold. nra. Qed.

Lemma magnitude_nonneg (v : Vector2D.t) : 0 <= Vector2D.magnitude v.
Proof. apply sqrt_pos. Qed.

Lemma magnitude_sqr (v : Vector2D.t) :
  Vector2D.magnitude v * Vector2D.magnitude v = Vector2D.dot v v.
Proof. apply sqrt_sqrt, dot_self_nonneg. Qed.

Lemma magnitude_init (a b m : R) :
  0 <= m -> m * m = a * a + b * b -> Vector2D.magnitude (Vector2D.init a b) = m.
Proof.
  intros Hm Hsq. unfold Vector2D.magnitude, np_norm, np_dot. simpl.
  apply sqrt_lem_1; nra.
Qed.

Lemma magnitude_zero (v : Vector2D.t) :
  Vector2D.magnitude v = 0 <-> v = Vector2D.zeros.
Proof.
  split.
  - intros H. pose proof (magnitude_sqr v) as Hs. rewrite H in Hs.
    destruct v as [[vx vy]]. apply vector_ext; vector_unfold; nra.
  - intros ->. apply magnitude_init; lra.
Qed.

Lemma magnitude_mul (v : Vector2D.t) (s : R) :
  0 <= s -> Vector2D.magnitude (Vector2D.mul v s) = Vector2D.magnitude v * s.
Proof.
  intros Hs. pose proof (magnitude_nonneg v) as Hv. pose proof (magnitude_sqr v) as Hq.
  destruct v as [[vx vy]]. vector_unfold.
  apply magnitude_init; nra.
Qed.

Lemma magnitude_neg (v : Vector2D.t) :
  Vector2D.magnitude (Vector2D.neg v) = Vector2D.magnitude v.
Proof.
  pose proof (magnitude_nonneg v) as Hv. pose proof (magnitude_sqr v) as Hq.
  destruct v as [[vx vy]]. vector_unfold.
  apply magnitude_init; nra.
Qed.

Lemma truediv_mul (v : Vector2D.t) (s : R) :
  Vector2D.truediv v s = Vector2D.mul v (/ s).
Proof. reflexivity. Qed.

Lemma normalized_nonzero (v : Vector2D.t) :
  Vector2D.magnitude v <> 0 ->
  Vector2D.normalized v = Vector2D.mul v (/ Vector2D.magnitude v).
Proof.
  intros Hm. unfold Vector2D.normalized, float_ne.
  apply float_eq_false in Hm. rewrite Hm. reflexivity.
Qed.

Lemma normalized_zero (v : Vector2D.t) :
  Vector2D.magnitude v = 0 -> Vector2D.normalized v = Vector2D.zeros.
Proof.
  intros Hm. unfold Vector2D.normalized, float_ne.
  apply float_eq_true in Hm. rewrite Hm. reflexivity.
Qed.

(** The Cauchy-Schwarz inequality, in the form the cosine needs. *)
Lemma dot_bounded (v w : Vector2D.t) :
  - (Vector2D.magnitude w * Vector2D.magnitude v) <= Vector2D.dot w v
    <= Vector2D.magnitude w * Vector2D.magnitude v.
Proof.
  pose proof (magnitude_nonneg v) as Hv. pose proof (magnitude_nonneg w) as Hw.
  pose proof (magnitude_sqr v) as Hqv. pose proof (magnitude_sqr w) as Hqw.
  set (mv := Vector2D.magnitude v) in *. set (mw := Vector2D.magnitude w) in *.
  destruct v as [[vx vy]], w as [[wx wy]]. vector_unfold.
  assert (Hcs : (wx * vx + wy * vy) * (wx * vx + wy * vy) <= (mw * mv) * (mw * mv)).
  { replace (mw * mv * (mw * mv)) with ((mw * mw) * (mv * mv)) by ring.
    rewrite Hqv, Hqw.
    pose proof (Rle_0_sqr (wx * vy - wy * vx)) as Hsq. unfold Rsqr in Hsq. lra. }
  assert (0 <= mw * mv) by nra.
  split; nra.
Qed.

Lemma cosine_bounded (v w : Vector2D.t) :
  Vector2D.magnitude v <> 0 -> Vector2D.magnitude w <> 0 ->
  -1 <= Vector2D.dot w v / (Vector2D.abs w * Vector2D.abs v) <= 1.
Proof.
  intros Hv Hw. unfold Vector2D.abs.
  pose proof (magnitude_nonneg v). pose proof (magnitude_nonneg w).
  pose proof (dot_bounded v w) as Hb.
  set (p := Vector2D.magnitude w * Vector2D.magnitude v) in *.
  assert (Hp : 0 < p) by (unfold p; nra).
  set (d := Vector2D.dot w v) in *.
  assert (Hc : d / p * p = d) by (field; lra).
  split.
  - apply Rmult_le_reg_r with p; [exact Hp | lra].
  - apply Rmult_le_reg_r with p; [exact Hp | lra].
Qed.

(** *** Kinematics: frames *)

Ltac kinematics_unfold :=
  unfold Kinematics.add, Kinematics.sub, Kinematics.updated, Kinematics.zeros,
    Kinematics.from_pose, Kinematics.init, Kinematics.position,
    Kinematics.orientation, Kinematics.velocity, Kinematics.rotation,
    Pose.zeros in *;
  simpl in *.

Lemma kinematics_ext (a b : Kinematics.t) :
  Kinematics.position a = Kinematics.position b ->
  Kinematics.orientation a = Kinematics.orientation b ->
  Kinematics.velocity a = Kinematics.velocity b ->
  Kinematics.rotation a = Kinematics.rotation b ->
  a = b.
Proof.
  destruct a, b. kinematics_unfold. intros -> -> -> ->. reflexivity.
Qed.

(** Close [l = r] where [l] is [r] times [sin^2 + cos^2], which [H] says is 1. *)
Ltac pythagoras H :=
  match type of H with
  | ?u = 1 =>
      match goal with
      | |- ?l = ?r => replace l with (u * r) by ring; rewrite H; ring
      end
  end.

(** Rotating by an angle and then by its opposite gives the vector back, and
    so in the other order. *)
Lemma rotated_neg_rotated (v : Vector2D.t) (angle : R) :
  Vector2D.rotated (Vector2D.rotated v angle) (- angle) = v.
Proof.
  destruct v as [[vx vy]]. vector_unfold.
  rewrite cos_neg, sin_neg.
  pose proof (sin2_cos2 angle) as H. unfold Rsqr in H.
  f_equal. f_equal; pythagoras H.
Qed.

Lemma rotated_rotated_neg (v : Vector2D.t) (angle : R) :
  Vector2D.rotated (Vector2D.rotated v (- angle)) angle = v.
Proof.
  destruct v as [[vx vy]]. vector_unfold.
  rewrite cos_neg, sin_neg.
  pose proof (sin2_cos2 angle) as H. unfold Rsqr in H.
  f_equal. f_equal; pythagoras H.
Qed.

Lemma rotated_0 (v : Vector2D.t) : Vector2D.rotated v 0 = v.
Proof.
  destruct v as [[vx vy]]. vector_unfold. rewrite cos_0, sin_0.
  f_equal. f_equal; ring.
Qed.

Lemma rotated_zeros (angle : R) :
  Vector2D.rotated Vector2D.zeros angle = Vector2D.zeros.
Proof. vector_unfold. f_equal. f_equal; ring. Qed.

Lemma add_sub_cancel (v w : Vector2D.t) :
  Vector2D.sub (Vector2D.add v w) v = w.
Proof. destruct v as [[vx vy]], w as [[wx wy]]. vector_unfold. f_equal. f_equal; ring. Qed.

Lemma add_sub_assoc (v w : Vector2D.t) :
  Vector2D.add v (Vector2D.sub w v) = w.
Proof. destruct v as [[vx vy]], w as [[wx wy]]. vector_unfold. f_equal. f_equal; ring. Qed.

Lemma sub_add_cancel (v w : Vector2D.t) :
  Vector2D.add (Vector2D.sub v w) w = v.
Proof. destruct v as [[vx vy]], w as [[wx wy]]. vector_unfold. f_equal. f_equal; ring. Qed.

Lemma add_zeros_l (v : Vector2D.t) : Vector2D.add Vector2D.zeros v = v.
Proof. destruct v as [[vx vy]]. vector_unfold. f_equal. f_equal; ring. Qed.

Lemma add_zeros_r (v : Vector2D.t) : Vector2D.add v Vector2D.zeros = v.
Proof. destruct v as [[vx vy]]. vector_unfold. f_equal. f_equal; ring. Qed.

(** The four fields of a composition, of a decomposition and of an update. *)
Section Fields.

Variables a b : Kinematics.t.

Lemma position_add :
  Kinematics.position (Kinematics.add a b) =
  Vector2D.add (Kinematics.position a)
    (Vector2D.rotated (Kinematics.position b) (Kinematics.orientation a)).
Proof. apply from_copy_id. Qed.

Lemma orientation_add :
  Kinematics.orientation (Kinematics.add a b) =
  Kinematics.orientation a + Kinematics.orientation b.
Proof. reflexivity. Qed.

Lemma velocity_add :
  Kinematics.velocity (Kinematics.add a b) =
  Vector2D.add (Kinematics.velocity a)
    (Vector2D.rotated (Kinematics.velocity b) (Kinematics.orientation a)).
Proof. apply from_copy_id. Qed.

Lemma rotation_add :
  Kinematics.rotation (Kinematics.add a b) =
  Kinematics.rotation a + Kinematics.rotation b.
Proof. reflexivity. Qed.

Lemma position_sub :
  Kinematics.position (Kinematics.sub a b) =
  Vector2D.rotated (Vector2D.sub (Kinematics.position a) (Kinematics.position b))
    (- Kinematics.orientation b).
Proof. apply from_copy_id. Qed.

Lemma orientation_sub :
  Kinematics.orientation (Kinematics.sub a b) =
  Kinematics.orientation a - Kinematics.orientation b.
Proof. reflexivity. Qed.

Lemma velocity_sub :
  Kinematics.velocity (Kinematics.sub a b) =
  Vector2D.rotated (Vector2D.sub (Kinematics.velocity a) (Kinematics.velocity b))
    (- Kinematics.orientation b).
Proof. apply from_copy_id. Qed.

Lemma rotation_sub :
  Kinematics.rotation (Kinematics.sub a b) =
  Kinematics.rotation a - Kinematics.rotation b.
Proof. reflexivity. Qed.

End Fields.

Lemma fields_zeros :
  Kinematics.position Kinematics.zeros = Vector2D.zeros /\
  Kinematics.orientation Kinematics.zeros = 0 /\
  Kinematics.velocity Kinematics.zeros = Vector2D.zeros /\
  Kinematics.rotation Kinematics.zeros = 0.
Proof. repeat split. Qed.

Create Rewrite HintDb fields.

#[local] Hint Rewrite position_add orientation_add velocity_add rotation_add
  position_sub orientation_sub velocity_sub rotation_sub : fields.

(** C9.  With the left operand [a] of the composition as the fixed frame, the
    round trips hold exactly on real numbers: [(a + b) - a] is [b] and
    [a + (b - a)] is [b], in position, orientation, velocity and rotation. *)
Theorem frame_round_trip_left (a b : Kinematics.t) :
  Kinematics.sub (Kinematics.add a b) a = b /\
  Kinematics.add a (Kinematics.sub b a) = b.
Proof.
  split; apply kinematics_ext; autorewrite with fields;
    rewrite ?add_sub_cancel, ?rotated_neg_rotated,
            ?rotated_rotated_neg, ?add_sub_assoc;
    try reflexivity; ring.
Qed.

(** C10.  [Kinematics.zeros()] is a left and a right identity of the
    composition: [zeros + k] and [k + zeros] are [k] in all four fields. *)
Theorem zeros_identity (k : Kinematics.t) :
  Kinematics.add Kinematics.zeros k = k /\
  Kinematics.add k Kinematics.zeros = k.
Proof.
  destruct fields_zeros as (Hp & Ho & Hv & Hr).
  split; apply kinematics_ext; autorewrite with fields;
    rewrite ?Hp, ?Ho, ?Hv, ?Hr,
            ?rotated_0, ?rotated_zeros, ?add_zeros_l, ?add_zeros_r;
    try reflexivity; ring.
Qed.

(** C1, as stated, fails, already on real numbers.  Take for [a] the frame
    at position (1, 0) with orientation 0 and for [b] the frame at the origin
    with orientation pi, both at rest: [(a + b) - b] and [(a - b) + b] are
    both at position (-1, 0), not at (1, 0). *)
Lemma frame_round_trip_right_fails :
  Kinematics.position
    (Kinematics.sub
       (Kinematics.add (Kinematics.init (Vector2D.init 1 0) 0 Vector2D.zeros 0)
                       (Kinematics.init Vector2D.zeros PI Vector2D.zeros 0))
       (Kinematics.init Vector2D.zeros PI Vector2D.zeros 0))
  = Vector2D.init (-1) 0 /\
  Kinematics.position
    (Kinematics.add
       (Kinematics.sub (Kinematics.init (Vector2D.init 1 0) 0 Vector2D.zeros 0)
                       (Kinematics.init Vector2D.zeros PI Vector2D.zeros 0))
       (Kinematics.init Vector2D.zeros PI Vector2D.zeros 0))
  = Vector2D.init (-1) 0 /\
  Vector2D.init (-1) 0
  <> Kinematics.position (Kinematics.init (Vector2D.init 1 0) 0 Vector2D.zeros 0).
Proof.
  repeat split.
  - kinematics_unfold. vector_unfold.
    rewrite cos_neg, sin_neg, cos_PI, sin_PI, cos_0, sin_0.
    f_equal. f_equal; ring.
  - kinematics_unfold. vector_unfold.
    rewrite cos_neg, sin_neg, cos_PI, sin_PI.
    f_equal. f_equal; ring.
  - intros H. apply (f_equal Vector2D.x) in H. vector_unfold. lra.
Qed.

Lemma rotated_add_angle (v : Vector2D.t) (a b : R) :
  Vector2D.rotated (Vector2D.rotated v a) b = Vector2D.rotated v (a + b).
Proof.
  destruct v as [[vx vy]]. vector_unfold.
  rewrite cos_plus, sin_plus. f_equal. f_equal; ring.
Qed.

Lemma rotated_add (v w : Vector2D.t) (angle : R) :
  Vector2D.rotated (Vector2D.add v w) angle
  = Vector2D.add (Vector2D.rotated v angle) (Vector2D.rotated w angle).
Proof.
  destruct v as [[vx vy]], w as [[wx wy]]. vector_unfold. f_equal. f_equal; ring.
Qed.

(** A vector is the rotation of another exactly when the other is its
    rotation by the opposite angle. *)
Lemma rotated_neg_iff (v w : Vector2D.t) (angle : R) :
  Vector2D.rotated v (- angle) = w <-> v = Vector2D.rotated w angle.
Proof.
  split.
  - intros <-. symmetry. apply rotated_rotated_neg.
  - intros ->. apply rotated_neg_rotated.
Qed.

Lemma kinematics_eq_iff (a b : Kinematics.t) :
  a = b <->
  Kinematics.position a = Kinematics.position b /\
  Kinematics.orientation a = Kinematics.orientation b /\
  Kinematics.velocity a = Kinematics.velocity b /\
  Kinematics.rotation a = Kinematics.rotation b.
Proof.
  split.
  - intros ->. repeat split.
  - intros (Hp & Ho & Hv & Hr). apply kinematics_ext; assumption.
Qed.

(** Turning [(v - w) rotated by -t, plus w rotated by (s - t)] by [t]. *)
Lemma sub_add_rotated (v w u : Vector2D.t) (s t : R) :
  Vector2D.add (Vector2D.rotated (Vector2D.sub v w) (- t))
               (Vector2D.rotated w (s - t)) = u <->
  Vector2D.sub (Vector2D.add v (Vector2D.rotated w s)) w = Vector2D.rotated u t.
Proof.
  assert (Hturn :
            Vector2D.add (Vector2D.rotated (Vector2D.sub v w) (- t))
                         (Vector2D.rotated w (s - t))
            = Vector2D.rotated
                (Vector2D.sub (Vector2D.add v (Vector2D.rotated w s)) w) (- t)).
  { replace (s - t) with (s + - t) by ring.
    rewrite <- rotated_add_angle, <- rotated_add. f_equal.
    destruct v as [[vx vy]], (Vector2D.rotated w s) as [[rx ry]], w as [[wx wy]].
    vector_unfold. f_equal. f_equal; ring. }
  rewrite Hturn. apply rotated_neg_iff.
Qed.

(** C1, amended.  On real numbers, with the right operand [b] as the fixed
    frame, the round trips [(a + b) - b] and [(a - b) + b] give back exactly
    the orientation and the rotation of [a] for every [a] and [b].  Each of
    them gives back [a] in all four fields if and only if
    [a.position + b.position.rotated(a.orientation) - b.position] is
    [a.position.rotated(b.orientation)], and likewise for the velocities.
    That is so when the orientations of [a] and [b] are both zero, and when
    [b] is [zeros()]. *)
Theorem frame_round_trip_right (a b : Kinematics.t) :
  (Kinematics.orientation (Kinematics.sub (Kinematics.add a b) b)
     = Kinematics.orientation a /\
   Kinematics.rotation (Kinematics.sub (Kinematics.add a b) b)
     = Kinematics.rotation a /\
   Kinematics.orientation (Kinematics.add (Kinematics.sub a b) b)
     = Kinematics.orientation a /\
   Kinematics.rotation (Kinematics.add (Kinematics.sub a b) b)
     = Kinematics.rotation a) /\
  (Kinematics.sub (Kinematics.add a b) b = a <->
   Vector2D.sub (Vector2D.add (Kinematics.position a)
                   (Vector2D.rotated (Kinematics.position b) (Kinematics.orientation a)))
                (Kinematics.position b)
   = Vector2D.rotated (Kinematics.position a) (Kinematics.orientation b) /\
   Vector2D.sub (Vector2D.add (Kinematics.velocity a)
                   (Vector2D.rotated (Kinematics.velocity b) (Kinematics.orientation a)))
                (Kinematics.velocity b)
   = Vector2D.rotated (Kinematics.velocity a) (Kinematics.orientation b)) /\
  (Kinematics.add (Kinematics.sub a b) b = a <->
   Vector2D.sub (Vector2D.add (Kinematics.position a)
                   (Vector2D.rotated (Kinematics.position b) (Kinematics.orientation a)))
                (Kinematics.position b)
   = Vector2D.rotated (Kinematics.position a) (Kinematics.orientation b) /\
   Vector2D.sub (Vector2D.add (Kinematics.velocity a)
                   (Vector2D.rotated (Kinematics.velocity b) (Kinematics.orientation a)))
                (Kinematics.velocity b)
   = Vector2D.rotated (Kinematics.velocity a) (Kinematics.orientation b)) /\
  (Kinematics.orientation a = 0 -> Kinematics.orientation b = 0 ->
   Kinematics.sub (Kinematics.add a b) b = a /\
   Kinematics.add (Kinematics.sub a b) b = a) /\
  (b = Kinematics.zeros ->
   Kinematics.sub (Kinematics.add a b) b = a /\
   Kinematics.add (Kinematics.sub a b) b = a).
Proof.
  assert (Hfields :
            Kinematics.orientation (Kinematics.sub (Kinematics.add a b) b)
              = Kinematics.orientation a /\
            Kinematics.rotation (Kinematics.sub (Kinematics.add a b) b)
              = Kinematics.rotation a /\
            Kinematics.orientation (Kinematics.add (Kinematics.sub a b) b)
              = Kinematics.orientation a /\
            Kinematics.rotation (Kinematics.add (Kinematics.sub a b) b)
              = Kinematics.rotation a).
  { repeat (rewrite orientation_sub || rewrite orientation_add
            || rewrite rotation_sub || rewrite rotation_add).
    repeat split; ring. }
  assert (Hleft :
            Kinematics.sub (Kinematics.add a b) b = a <->
            Vector2D.sub (Vector2D.add (Kinematics.position a)
                            (Vector2D.rotated (Kinematics.position b)
                                              (Kinematics.orientation a)))
                         (Kinematics.position b)
            = Vector2D.rotated (Kinematics.position a) (Kinematics.orientation b) /\
            Vector2D.sub (Vector2D.add (Kinematics.velocity a)
                            (Vector2D.rotated (Kinematics.velocity b)
                                              (Kinematics.orientation a)))
                         (Kinematics.velocity b)
            = Vector2D.rotated (Kinematics.velocity a) (Kinematics.orientation b)).
  { rewrite kinematics_eq_iff. destruct Hfields as (Ho & Hr & _ & _).
    rewrite position_sub, velocity_sub, position_add, velocity_add, !rotated_neg_iff.
    tauto. }
  assert (Hright :
            Kinematics.add (Kinematics.sub a b) b = a <->
            Vector2D.sub (Vector2D.add (Kinematics.position a)
                            (Vector2D.rotated (Kinematics.position b)
                                              (Kinematics.orientation a)))
                         (Kinematics.position b)
            = Vector2D.rotated (Kinematics.position a) (Kinematics.orientation b) /\
            Vector2D.sub (Vector2D.add (Kinematics.velocity a)
                            (Vector2D.rotated (Kinematics.velocity b)
                                              (Kinematics.orientation a)))
                         (Kinematics.velocity b)
            = Vector2D.rotated (Kinematics.velocity a) (Kinematics.orientation b)).
  { rewrite kinematics_eq_iff. destruct Hfields as (_ & _ & Ho & Hr).
    rewrite position_add, velocity_add, position_sub, velocity_sub, orientation_sub,
      !sub_add_rotated.
    tauto. }
  split; [exact Hfields |]. split; [exact Hleft |]. split; [exact Hright |].
  assert (Hz : forall v w, Vector2D.sub (Vector2D.add v w) w = v).
  { intros [[vx vy]] [[wx wy]]. vector_unfold. f_equal. f_equal; ring. }
  split.
  - intros Ha Hb. rewrite Hleft, Hright, Ha, Hb, !rotated_0, !Hz. tauto.
  - intros ->. rewrite Hleft, Hright.
    destruct fields_zeros as (Hp & Ho & Hv & Hr).
    rewrite Hp, Ho, Hv, !rotated_zeros, !rotated_0, !add_zeros_r.
    assert (Hs : forall v, Vector2D.sub v Vector2D.zeros = v).
    { intros [[vx vy]]. vector_unfold. f_equal. f_equal; ring. }
    rewrite !Hs. tauto.
Qed.

(** Two frames of orientation 0. *)
Lemma frame_round_trip_right_witness :
  Kinematics.sub
    (Kinematics.add (Kinematics.init (Vector2D.init 1 2) 0 (Vector2D.init 3 4) 5)
                    (Kinematics.init (Vector2D.init 6 7) 0 (Vector2D.init 8 9) 1))
    (Kinematics.init (Vector2D.init 6 7) 0 (Vector2D.init 8 9) 1)
  = Kinematics.init (Vector2D.init 1 2) 0 (Vector2D.init 3 4) 5.
Proof.
  apply (proj1 (proj2 (proj2 (proj2 (frame_round_trip_right
           (Kinematics.init (Vector2D.init 1 2) 0 (Vector2D.init 3 4) 5)
           (Kinematics.init (Vector2D.init 6 7) 0 (Vector2D.init 8 9) 1))))));
    reflexivity.
Defined.

(** *** Kinematics: the motion update *)

(** C2.  [updated] adds [rotation * delta_time] to the orientation and adds
    to the position the displacement [velocity * delta_time] rotated by that
    same change of orientation: the components of the new position depend on
    the rotation, not on the orientation at the start of the step.  A body at
    the origin with orientation 0, velocity (1, 0) and rotation pi/2 is after
    one unit of time at (0, 1) with orientation pi/2. *)
Theorem updated_pose (k : Kinematics.t) (dt : R) :
  Kinematics.orientation (Kinematics.updated k dt)
    = Kinematics.orientation k + Kinematics.rotation k * dt /\
  Kinematics.position (Kinematics.updated k dt)
    = Vector2D.add (Kinematics.position k)
        (Vector2D.rotated (Vector2D.mul (Kinematics.velocity k) dt)
                          (Kinematics.rotation k * dt)) /\
  Vector2D.x (Kinematics.position (Kinematics.updated k dt))
    = Vector2D.x (Kinematics.position k)
      + (cos (Kinematics.rotation k * dt) * (Vector2D.x (Kinematics.velocity k) * dt)
         - sin (Kinematics.rotation k * dt) * (Vector2D.y (Kinematics.velocity k) * dt)) /\
  Vector2D.y (Kinematics.position (Kinematics.updated k dt))
    = Vector2D.y (Kinematics.position k)
      + (sin (Kinematics.rotation k * dt) * (Vector2D.x (Kinematics.velocity k) * dt)
         + cos (Kinematics.rotation k * dt) * (Vector2D.y (Kinematics.velocity k) * dt)) /\
  Kinematics.orientation
    (Kinematics.updated
       (Kinematics.init Vector2D.zeros 0 (Vector2D.init 1 0) (PI / 2)) 1)
    = PI / 2 /\
  Kinematics.position
    (Kinematics.updated
       (Kinematics.init Vector2D.zeros 0 (Vector2D.init 1 0) (PI / 2)) 1)
    = Vector2D.init 0 1.
Proof.
  repeat apply conj.
  - reflexivity.
  - unfold Kinematics.updated, Kinematics.position. simpl. apply from_copy_id.
  - destruct k as [[[px py]] o [[vx vy]] r]. kinematics_unfold. vector_unfold. ring.
  - destruct k as [[[px py]] o [[vx vy]] r]. kinematics_unfold. vector_unfold. ring.
  - kinematics_unfold. lra.
  - kinematics_unfold. vector_unfold.
    replace (PI / 2 * 1) with (PI / 2) by lra.
    rewrite cos_PI2, sin_PI2. f_equal. f_equal; ring.
Qed.

(** C3.  [updated] carries the velocity and the rotation over unchanged. *)
Theorem updated_velocity_rotation (k : Kinematics.t) (dt : R) :
  Kinematics.velocity (Kinematics.updated k dt) = Kinematics.velocity k /\
  Kinematics.rotation (Kinematics.updated k dt) = Kinematics.rotation k.
Proof.
  split.
  - unfold Kinematics.updated, Kinematics.velocity at 1. simpl. apply from_copy_id.
  - reflexivity.
Qed.

(** *** Vectors: normalisation *)

Lemma magnitude_normalized (v : Vector2D.t) :
  Vector2D.magnitude v <> 0 -> Vector2D.magnitude (Vector2D.normalized v) = 1.
Proof.
  intros Hm. pose proof (magnitude_nonneg v) as Hp.
  rewrite normalized_nonzero by exact Hm.
  rewrite magnitude_mul.
  - field. exact Hm.
  - left. apply Rinv_0_lt_compat. lra.
Qed.

(** On real numbers: the normalisation of a vector of nonzero magnitude has magnitude 1
    and the direction of the vector: it is the vector times the positive
    number [1 / magnitude], and the vector is its normalisation times the
    magnitude.  The normalisation of a vector of magnitude zero is
    [zeros()]. *)
Theorem normalized_spec (v : Vector2D.t) :
  (Vector2D.magnitude v <> 0 ->
   Vector2D.magnitude (Vector2D.normalized v) = 1 /\
   0 < / Vector2D.magnitude v /\
   Vector2D.normalized v = Vector2D.mul v (/ Vector2D.magnitude v) /\
   v = Vector2D.mul (Vector2D.normalized v) (Vector2D.magnitude v)) /\
  (Vector2D.magnitude v = 0 -> Vector2D.normalized v = Vector2D.zeros).
Proof.
  split.
  - intros Hm. pose proof (magnitude_nonneg v) as Hp.
    repeat apply conj.
    + apply magnitude_normalized, Hm.
    + apply Rinv_0_lt_compat. lra.
    + apply normalized_nonzero, Hm.
    + rewrite normalized_nonzero by exact Hm.
      set (m := Vector2D.magnitude v) in *.
      destruct v as [[vx vy]]. vector_unfold. f_equal. f_equal; field; exact Hm.
  - apply normalized_zero.
Qed.

(** The vector (3, 4), of magnitude 5, and the zero vector. *)
Lemma normalized_spec_witness :
  Vector2D.magnitude (Vector2D.normalized (Vector2D.init 3 4)) = 1 /\
  Vector2D.normalized Vector2D.zeros = Vector2D.zeros.
Proof.
  assert (H5 : Vector2D.magnitude (Vector2D.init 3 4) = 5)
    by (apply magnitude_init; lra).
  assert (H0 : Vector2D.magnitude Vector2D.zeros = 0)
    by (apply magnitude_init; lra).
  split.
  - apply (normalized_spec (Vector2D.init 3 4)). rewrite H5. lra.
  - apply (normalized_spec Vector2D.zeros). exact H0.
Defined.

(** *** Kinematics: stopping *)

Lemma mul_mul (v : Vector2D.t) (s u : R) :
  Vector2D.mul (Vector2D.mul v s) u = Vector2D.mul v (s * u).
Proof. destruct v as [[vx vy]]. vector_unfold. f_equal. f_equal; ring. Qed.

Lemma mul_1 (v : Vector2D.t) : Vector2D.mul v 1 = v.
Proof. destruct v as [[vx vy]]. vector_unfold. f_equal. f_equal; ring. Qed.

Lemma mul_zeros (s : R) : Vector2D.mul Vector2D.zeros s = Vector2D.zeros.
Proof. vector_unfold. f_equal. f_equal; ring. Qed.

Lemma delta_position_to_stop_mul (k : Kinematics.t) (d : R) :
  Kinematics.delta_position_to_stop k d
  = Vector2D.mul (Vector2D.normalized (Kinematics.velocity k))
      (Vector2D.magnitude (Kinematics.velocity k) ^ 2 / (2 * d)).
Proof.
  unfold Kinematics.delta_position_to_stop, Vector2D.abs.
  rewrite truediv_mul, mul_mul. reflexivity.
Qed.

(** On real numbers: for a deceleration [d > 0], [delta_position_to_stop] is the
    normalised velocity times [|velocity|^2 / (2 d)]: a vector of that
    magnitude, whose normalisation is that of the velocity.  For the velocity
    (3, 4) and [d = 1] it is (7.5, 10), of magnitude 12.5 and direction
    (0.6, 0.8). *)
Theorem delta_position_to_stop_spec :
  (forall (k : Kinematics.t) (d : R),
      0 < d ->
      Kinematics.delta_position_to_stop k d
      = Vector2D.mul (Vector2D.normalized (Kinematics.velocity k))
          (Vector2D.magnitude (Kinematics.velocity k) ^ 2 / (2 * d)) /\
      Vector2D.magnitude (Kinematics.delta_position_to_stop k d)
      = Vector2D.magnitude (Kinematics.velocity k) ^ 2 / (2 * d) /\
      Vector2D.normalized (Kinematics.delta_position_to_stop k d)
      = Vector2D.normalized (Kinematics.velocity k)) /\
  (forall (p : Vector2D.t) (o r : R),
      Kinematics.delta_position_to_stop
        (Kinematics.init p o (Vector2D.init 3 4) r) 1
      = Vector2D.init 7.5 10 /\
      Vector2D.magnitude (Vector2D.init 7.5 10) = 12.5 /\
      Vector2D.normalized (Vector2D.init 7.5 10) = Vector2D.init 0.6 0.8).
Proof.
  split.
  - intros k d Hd.
    rewrite delta_position_to_stop_mul.
    set (v := Kinematics.velocity k).
    pose proof (magnitude_nonneg v) as Hp.
    set (c := Vector2D.magnitude v ^ 2 / (2 * d)).
    assert (Hc : 0 <= c).
    { unfold c. apply Rmult_le_pos; [nra |]. left. apply Rinv_0_lt_compat. lra. }
    split; [reflexivity |].
    destruct (Req_dec_T (Vector2D.magnitude v) 0) as [Hz | Hnz].
    + rewrite (normalized_zero v Hz), mul_zeros.
      assert (H0 : Vector2D.magnitude Vector2D.zeros = 0)
        by (apply magnitude_init; lra).
      split.
      * rewrite H0. unfold c. rewrite Hz. field. lra.
      * apply normalized_zero, H0.
    + assert (Hm : Vector2D.magnitude (Vector2D.mul (Vector2D.normalized v) c) = c).
      { rewrite magnitude_mul by exact Hc.
        rewrite (magnitude_normalized v Hnz). ring. }
      assert (Hcpos : c <> 0).
      { unfold c. intros H0.
        assert (Vector2D.magnitude v ^ 2 = 0).
        { replace (Vector2D.magnitude v ^ 2) with
            (Vector2D.magnitude v ^ 2 / (2 * d) * (2 * d)) by (field; lra).
          rewrite H0. ring. }
        nra. }
      split; [exact Hm |].
      rewrite normalized_nonzero by (rewrite Hm; exact Hcpos).
      rewrite Hm, mul_mul.
      replace (c * / c) with 1 by (field; exact Hcpos).
      apply mul_1.
  - intros p o r.
    assert (H5 : Vector2D.magnitude (Vector2D.init 3 4) = 5)
      by (apply magnitude_init; lra).
    assert (Hm : Vector2D.magnitude (Vector2D.init 7.5 10) = 12.5)
      by (apply magnitude_init; lra).
    repeat apply conj.
    + rewrite delta_position_to_stop_mul.
      unfold Kinematics.velocity, Kinematics.init. simpl.
      rewrite from_copy_id, normalized_nonzero by (rewrite H5; lra).
      rewrite H5. vector_unfold. f_equal. f_equal; lra.
    + exact Hm.
    + rewrite normalized_nonzero by (rewrite Hm; lra).
      rewrite Hm. vector_unfold. f_equal. f_equal; lra.
Qed.

(** The velocity (3, 4) and the deceleration 1. *)
Lemma delta_position_to_stop_witness :
  Vector2D.magnitude
    (Kinematics.delta_position_to_stop
       (Kinematics.init Vector2D.zeros 0 (Vector2D.init 3 4) 0) 1)
  = Vector2D.magnitude
      (Kinematics.velocity
         (Kinematics.init Vector2D.zeros 0 (Vector2D.init 3 4) 0)) ^ 2 / (2 * 1).
Proof.
  apply (proj1 delta_position_to_stop_spec
           (Kinematics.init Vector2D.zeros 0 (Vector2D.init 3 4) 0) 1).
  lra.
Defined.

(** On real numbers, for [d > 0], [delta_orientation_to_stop] returns
    [rotation^2 / (2 d)] with the sign of the rotation. *)
Lemma delta_orientation_to_stop_ideal (k : Kinematics.t) (d : R) :
  0 < d ->
  exists value : R,
    Kinematics.delta_orientation_to_stop k d = Ok value /\
    Rabs value = Kinematics.rotation k ^ 2 / (2 * d) /\
    (0 < Kinematics.rotation k ->
     value = Kinematics.rotation k ^ 2 / (2 * d) /\ 0 < value) /\
    (Kinematics.rotation k < 0 ->
     value = - (Kinematics.rotation k ^ 2 / (2 * d)) /\ value < 0) /\
    (Kinematics.rotation k = 0 -> value = 0).
Proof.
  intros Hd. unfold Kinematics.delta_orientation_to_stop, float_truediv.
  assert (H2d : float_eq (2 * d) 0 = false) by (apply float_eq_false; lra).
  rewrite H2d. unfold bind.
  set (r := Kinematics.rotation k).
  rewrite pow2_abs.
  assert (Hq : 0 <= r ^ 2 / (2 * d)).
  { apply Rmult_le_pos; [nra |]. left. apply Rinv_0_lt_compat. lra. }
  assert (Hqpos : r <> 0 -> 0 < r ^ 2 / (2 * d)).
  { intros Hr. apply Rmult_lt_0_compat; [nra |]. apply Rinv_0_lt_compat. lra. }
  eexists. split; [reflexivity |].
  destruct (float_gt r 0) eqn:Hgt.
  - apply float_gt_true in Hgt.
    split; [| split; [| split]].
    + apply Rabs_pos_eq, Hq.
    + intros _. split; [reflexivity | apply Hqpos; lra].
    + intros Hneg. lra.
    + intros Hzero. lra.
  - apply float_gt_false in Hgt.
    split; [| split; [| split]].
    + rewrite Rabs_Ropp. apply Rabs_pos_eq, Hq.
    + intros Hpos. lra.
    + intros Hneg. split; [reflexivity |].
      assert (0 < r ^ 2 / (2 * d)) by (apply Hqpos; lra). lra.
    + intros Hzero. rewrite Hzero. field. lra.
Qed.

(** *** Vectors: the angle between two vectors *)

Lemma math_acos_ok (c : R) : -1 <= c <= 1 -> math_acos c = Ok (acos c).
Proof.
  intros [Hlo Hhi]. unfold math_acos.
  destruct (Rlt_dec c (-1)); [lra |].
  destruct (Rlt_dec 1 c); [lra | reflexivity].
Qed.

Lemma angle_from_zero (v w : Vector2D.t) :
  Vector2D.magnitude v = 0 \/ Vector2D.magnitude w = 0 ->
  Vector2D.angle_from v w = Ok 0.
Proof.
  intros H. unfold Vector2D.angle_from, Vector2D.abs.
  destruct (float_eq (Vector2D.magnitude v) 0) eqn:Hv; [reflexivity |].
  destruct (float_eq (Vector2D.magnitude w) 0) eqn:Hw; [reflexivity |].
  apply float_eq_false in Hv, Hw. tauto.
Qed.

Lemma angle_from_nonzero (v w : Vector2D.t) :
  Vector2D.magnitude v <> 0 -> Vector2D.magnitude w <> 0 ->
  Vector2D.angle_from v w
  = Ok (acos (round (Vector2D.dot w v / (Vector2D.abs w * Vector2D.abs v)) 4)).
Proof.
  intros Hv Hw. unfold Vector2D.angle_from.
  apply float_eq_false in Hv as Hv', Hw as Hw'. unfold Vector2D.abs at 1 2.
  rewrite Hv', Hw'. simpl.
  apply math_acos_ok, round_unit_interval, cosine_bounded; assumption.
Qed.

Lemma acos_opp_1 : acos (-1) = PI.
Proof. replace (-1) with (Ropp 1) by lra. rewrite acos_opp, acos_1. ring. Qed.

Lemma cosine_self (v : Vector2D.t) :
  Vector2D.magnitude v <> 0 ->
  Vector2D.dot v v / (Vector2D.abs v * Vector2D.abs v) = 1.
Proof.
  intros Hv. unfold Vector2D.abs. rewrite magnitude_sqr.
  apply Rdiv_diag. rewrite <- magnitude_sqr. nra.
Qed.

Lemma cosine_neg (v : Vector2D.t) :
  Vector2D.magnitude v <> 0 ->
  Vector2D.dot (Vector2D.neg v) v
    / (Vector2D.abs (Vector2D.neg v) * Vector2D.abs v) = -1.
Proof.
  intros Hv. unfold Vector2D.abs. rewrite magnitude_neg, magnitude_sqr.
  assert (Hd : Vector2D.dot (Vector2D.neg v) v = - Vector2D.dot v v).
  { destruct v as [[vx vy]]. vector_unfold. ring. }
  rewrite Hd. field. rewrite <- magnitude_sqr. nra.
Qed.

(** On real numbers: [angle_from] raises nothing and returns an angle between 0 and pi:
    0 when one of the two vectors has magnitude zero, and otherwise the arc
    cosine of the cosine rounded to 4 decimals.  The angle of a nonzero
    vector from itself is 0 and from its opposite is pi. *)
Theorem angle_from_spec (v w : Vector2D.t) :
  (exists angle : R, Vector2D.angle_from v w = Ok angle /\ 0 <= angle <= PI) /\
  (Vector2D.magnitude v = 0 \/ Vector2D.magnitude w = 0 ->
   Vector2D.angle_from v w = Ok 0) /\
  (Vector2D.magnitude v <> 0 -> Vector2D.magnitude w <> 0 ->
   Vector2D.angle_from v w
   = Ok (acos (round (Vector2D.dot w v / (Vector2D.abs w * Vector2D.abs v)) 4))) /\
  (Vector2D.magnitude v <> 0 ->
   Vector2D.angle_from v v = Ok 0 /\
   Vector2D.angle_from v (Vector2D.neg v) = Ok PI).
Proof.
  split; [| split; [| split]].
  - destruct (Req_dec_T (Vector2D.magnitude v) 0) as [Hv | Hv].
    { exists 0. split; [apply angle_from_zero; left; exact Hv |].
      pose proof PI_RGT_0. lra. }
    destruct (Req_dec_T (Vector2D.magnitude w) 0) as [Hw | Hw].
    { exists 0. split; [apply angle_from_zero; right; exact Hw |].
      pose proof PI_RGT_0. lra. }
    eexists. split; [apply angle_from_nonzero; assumption | apply acos_bound].
  - apply angle_from_zero.
  - apply angle_from_nonzero.
  - intros Hv. split.
    + rewrite angle_from_nonzero by assumption.
      rewrite cosine_self by assumption.
      rewrite (round_IZR 1). rewrite acos_1. reflexivity.
    + rewrite angle_from_nonzero by (rewrite ?magnitude_neg; assumption).
      rewrite cosine_neg by assumption.
      rewrite (round_IZR (-1)). rewrite acos_opp_1. reflexivity.
Qed.

(** The vector (3, 4) against itself, its opposite and the zero vector. *)
Lemma angle_from_spec_witness :
  Vector2D.angle_from (Vector2D.init 3 4) (Vector2D.init 3 4) = Ok 0 /\
  Vector2D.angle_from (Vector2D.init 3 4) (Vector2D.neg (Vector2D.init 3 4)) = Ok PI /\
  Vector2D.angle_from (Vector2D.init 3 4) Vector2D.zeros = Ok 0.
Proof.
  assert (H5 : Vector2D.magnitude (Vector2D.init 3 4) = 5)
    by (apply magnitude_init; lra).
  assert (H0 : Vector2D.magnitude Vector2D.zeros = 0)
    by (apply magnitude_init; lra).
  destruct (angle_from_spec (Vector2D.init 3 4) (Vector2D.init 3 4))
    as (_ & _ & _ & Hself).
  destruct (angle_from_spec (Vector2D.init 3 4) Vector2D.zeros)
    as (_ & Hzero & _).
  destruct Hself as [Hs Hn]; [rewrite H5; lra |].
  repeat apply conj.
  - exact Hs.
  - exact Hn.
  - apply Hzero. right. exact H0.
Defined.

End IdealFacts.

(** ** On binary64 *)

Module Binary64Facts.

Import Floats.
Import Binary64.
Local Open Scope float_scope.

(** The floats that compare above zero are the positive infinity and the
    finite positive numbers. *)
Lemma ltb_zero_inv (d : float) :
  (0 <? d) = true ->
  Prim2SF d = S754_infinity false \/
  exists m e, Prim2SF d = S754_finite false m e.
Proof.
  rewrite ltb_spec. change (Prim2SF 0) with (S754_zero false).
  destruct (Prim2SF d) as [s | s | | s m e]; try destruct s;
    cbn; try discriminate; intros _.
  - left. reflexivity.
  - right. exists m, e. reflexivity.
Qed.

Lemma digits2_double (m : positive) :
  digits2_pos (Pos.mul 4503599627370496 m) = (digits2_pos m + 52)%positive.
Proof.
  cbn [Pos.mul digits2_pos]. lia.
Qed.

Lemma bounded_inv (m : positive) (e : Z) :
  bounded prec emax m e = true ->
  (Z.pos (digits2_pos m) = 53 /\ -1074 <= e <= 971)%Z \/
  (Z.pos (digits2_pos m) < 53 /\ e = -1074)%Z.
Proof.
  unfold bounded, canonical_mantissa, fexp, emin, prec, emax.
  intros H. apply andb_prop in H as [H1 H2].
  apply Z.eqb_eq in H1. apply Z.leb_le in H2.
  lia.
Qed.

(** Shifting an exact mantissa: no shift when the exponent is already the
    canonical one. *)
Lemma shr_fexp_canonical (m : positive) (e : Z) :
  canonical_mantissa prec emax m e = true ->
  shr_fexp prec emax (Z.pos m) e loc_Exact
  = ({| shr_m := Z.pos m; shr_r := false; shr_s := false |}, e).
Proof.
  unfold canonical_mantissa. intros H. apply Z.eqb_eq in H.
  unfold shr_fexp, Zdigits2. rewrite H, Z.sub_diag. reflexivity.
Qed.

Ltac shift_by n :=
  match goal with
  | |- context [shr ?r ?e ?k] => replace k with n by lia
  end.

Lemma shr_fexp_double_normal (m : positive) (e : Z) :
  Z.pos (digits2_pos m) = 53%Z -> (-1074 <= e)%Z ->
  shr_fexp prec emax (Z.pos (4503599627370496 * m)) (-51 + e) loc_Exact
  = ({| shr_m := Z.pos m; shr_r := false; shr_s := false |}, (-51 + e + 52)%Z).
Proof.
  intros Hd He.
  unfold shr_fexp, Zdigits2. rewrite digits2_double.
  unfold fexp, emin, prec, emax.
  shift_by 52%Z.
  reflexivity.
Qed.

Lemma shr_fexp_double_subnormal (m : positive) (e : Z) :
  (Z.pos (digits2_pos m) < 53)%Z -> e = (-1074)%Z ->
  shr_fexp prec emax (Z.pos (4503599627370496 * m)) (-51 + e) loc_Exact
  = ({| shr_m := Z.pos m~0; shr_r := false; shr_s := false |}, (-51 + e + 51)%Z).
Proof.
  intros Hd He.
  unfold shr_fexp, Zdigits2. rewrite digits2_double.
  unfold fexp, emin, prec, emax.
  shift_by 51%Z.
  reflexivity.
Qed.

(** Twice a finite positive float: the exponent goes up by one, up to the
    infinity, on a normal number, and the mantissa doubles on a subnormal
    one.  The product is never a zero or a NaN. *)
Lemma mul_two_finite (m : positive) (e : Z) :
  bounded prec emax m e = true ->
  SF64mul (S754_finite false 4503599627370496 (-51)) (S754_finite false m e)
  = S754_infinity false \/
  exists m' e',
    SF64mul (S754_finite false 4503599627370496 (-51)) (S754_finite false m e)
    = S754_finite false m' e'.
Proof.
  intros Hb. apply bounded_inv in Hb.
  unfold SF64mul, SFmul, binary_round_aux. cbn [xorb].
  destruct Hb as [[Hd He] | [Hd He]].
  - rewrite shr_fexp_double_normal by lia.
    cbn [shr_m loc_of_shr_record round_nearest_even].
    rewrite shr_fexp_canonical.
    + cbn [shr_m]. destruct (_ <=? _)%Z; [right; eauto | left; reflexivity].
    + unfold canonical_mantissa, fexp, emin, prec, emax. apply Z.eqb_eq. lia.
  - rewrite shr_fexp_double_subnormal by lia.
    cbn [shr_m loc_of_shr_record round_nearest_even].
    rewrite shr_fexp_canonical.
    + cbn [shr_m]. destruct (_ <=? _)%Z; [right; eauto | left; reflexivity].
    + unfold canonical_mantissa, fexp, emin, prec, emax. apply Z.eqb_eq.
      cbn [digits2_pos]. lia.
Qed.

Lemma mul_two_pos (d : float) :
  (0 <? d) = true ->
  Prim2SF (2 * d) = S754_infinity false \/
  exists m e, Prim2SF (2 * d) = S754_finite false m e.
Proof.
  intros Hd. rewrite mul_spec.
  change (Prim2SF 2) with (S754_finite false 4503599627370496 (-51)).
  pose proof (Prim2SF_valid d) as Hv.
  destruct (ltb_zero_inv d Hd) as [Hi | (m & e & Hf)].
  - rewrite Hi. left. reflexivity.
  - rewrite Hf in *. apply mul_two_finite. exact Hv.
Qed.

(** The floats equal to zero are the two zeros. *)
Lemma eqb_zero_inv (s : float) :
  (s =? 0) = true -> exists b, Prim2SF s = S754_zero b.
Proof.
  rewrite eqb_spec. change (Prim2SF 0) with (S754_zero false).
  destruct (Prim2SF s) as [b | b | | b m e]; try destruct b;
    cbn; try discriminate; intros _; eauto.
Qed.

Lemma zero_cases (s : float) :
  (s =? 0) = true -> s = 0 \/ s = -0.
Proof.
  intros H. destruct (eqb_zero_inv s H) as [b Hb].
  rewrite <- (SF2Prim_Prim2SF s), Hb.
  destruct b; [right | left]; reflexivity.
Qed.

Lemma of_spec_float (a : float) (sf : spec_float) :
  Prim2SF a = sf -> a = SF2Prim sf.
Proof. intros <-. symmetry. apply SF2Prim_Prim2SF. Qed.

(** A quotient by a zero is an infinity or a NaN. *)
Lemma div_zero (a s : float) :
  (s =? 0) = true -> (is_infinity (a / s) || is_nan (a / s)) = true.
Proof.
  intros Hs. destruct (eqb_zero_inv s Hs) as [b Hb].
  pose proof (div_spec a s) as Hq. rewrite Hb in Hq.
  unfold SF64div, SFdiv in Hq.
  destruct (Prim2SF a) as [sa | sa | | sa ma ea];
    apply of_spec_float in Hq; rewrite Hq;
    try destruct sa; destruct b; reflexivity.
Qed.

(** Zero over a positive float is the positive zero. *)
Lemma zero_div_pos (p : float) :
  Prim2SF p = S754_infinity false \/
  (exists m e, Prim2SF p = S754_finite false m e) ->
  0 / p = 0 /\ (p =? 0) = false.
Proof.
  intros Hp. split.
  - apply Prim2SF_inj. rewrite div_spec.
    change (Prim2SF 0) with (S754_zero false).
    destruct Hp as [-> | (m & e & ->)]; reflexivity.
  - rewrite eqb_spec. change (Prim2SF 0) with (S754_zero false).
    destruct Hp as [-> | (m & e & ->)]; reflexivity.
Qed.

(** The two divisions by zero side by side: numpy's returns infinities and
    NaN, Python's raises. *)
Example truediv_by_zero :
  Vector2D.truediv (Vector2D.init 1 0) 0 = Ok (Vector2D.init infinity nan) /\
  Vector2D.truediv (Vector2D.init (-1) 2) (-0)
  = Ok (Vector2D.init infinity neg_infinity).
Proof. split; reflexivity. Qed.

Example float_truediv_by_zero :
  float_truediv 1 0 = Raise ZeroDivisionError /\
  float_truediv 1 (-0) = Raise ZeroDivisionError.
Proof. split; reflexivity. Qed.

(** C8.  [v / s] raises nothing for any vector and any scalar: it returns the
    vector of the two IEEE-754 quotients.  When [s] is a zero, of either
    sign, each component of the result is an infinity or a NaN. *)
Theorem truediv_never_raises (v : Vector2D.t) (s : float) :
  exists w : Vector2D.t,
    Vector2D.truediv v s = Ok w /\
    Vector2D.x w = Vector2D.x v / s /\
    Vector2D.y w = Vector2D.y v / s /\
    ((s =? 0) = true ->
     (is_infinity (Vector2D.x w) || is_nan (Vector2D.x w)) = true /\
     (is_infinity (Vector2D.y w) || is_nan (Vector2D.y w)) = true).
Proof.
  eexists. split; [reflexivity |].
  split; [reflexivity |]. split; [reflexivity |].
  intros Hs.
  unfold Vector2D.x, Vector2D.y, Vector2D.from_array, Vector2D.init, np_div.
  simpl. split; apply div_zero, Hs.
Qed.

(** (1, 0) / 0 is (infinity, NaN). *)
Lemma truediv_never_raises_witness :
  exists w : Vector2D.t,
    Vector2D.truediv (Vector2D.init 1 0) 0 = Ok w /\
    (is_infinity (Vector2D.x w) || is_nan (Vector2D.x w)) = true /\
    (is_infinity (Vector2D.y w) || is_nan (Vector2D.y w)) = true.
Proof.
  destruct (truediv_never_raises (Vector2D.init 1 0) 0) as (w & Hw & _ & _ & Hz).
  exists w. split; [exact Hw | apply Hz; reflexivity].
Defined.

(** On binary64, for [d > 0], [delta_orientation_to_stop] of a rotation that
    is a zero, of either sign, is the negative zero. *)
Lemma delta_orientation_to_stop_zero (k : Kinematics.t) (d : float) :
  (0 <? d) = true ->
  (Kinematics.rotation k =? 0) = true ->
  Kinematics.delta_orientation_to_stop k d = Ok (-0).
Proof.
  intros Hd Hr.
  destruct (zero_div_pos (2 * d) (mul_two_pos d Hd)) as [Hq Hnz].
  unfold Kinematics.delta_orientation_to_stop, float_truediv.
  destruct (zero_cases _ Hr) as [-> | ->].
  - change (float_pow2 (abs 0)) with (@Ok float 0).
    unfold bind. rewrite Hnz, Hq. reflexivity.
  - change (float_pow2 (abs (-0))) with (@Ok float 0).
    unfold bind. rewrite Hnz, Hq. reflexivity.
Qed.

(** C5, as stated, fails.  For the rotation 0.0 and the deceleration 1.0 the
    method returns the negative zero, not the positive one. *)
Lemma delta_orientation_to_stop_zero_negative :
  Kinematics.delta_orientation_to_stop
    (Kinematics.init (Vector2D.init 0 0) 0 (Vector2D.init 0 0) 0) 1
  = Ok (-0) /\
  Kinematics.delta_orientation_to_stop
    (Kinematics.init (Vector2D.init 0 0) 0 (Vector2D.init 0 0) 0) 1
  <> Ok 0 /\
  classify (-0) = NZero /\
  classify 0 = PZero.
Proof.
  repeat apply conj; try reflexivity.
  intros H.
  apply (f_equal (fun r => match r with Ok a => classify a | Raise _ => NaN end)) in H.
  discriminate H.
Qed.


(** *** Comparisons *)

Lemma SFeqb_true (f g : spec_float) :
  SFeqb f g = true <->
  (f = g /\ f <> S754_nan) \/
  (exists s1 s2, f = S754_zero s1 /\ g = S754_zero s2).
Proof.
  unfold SFeqb, SFcompare. split.
  - destruct f as [s1 | s1 | | s1 m1 e1], g as [s2 | s2 | | s2 m2 e2];
      try (destruct s1; discriminate); try (destruct s2; discriminate);
      try discriminate.
    + intros _. right. eauto.
    + destruct s1, s2; try discriminate; intros _; left;
        (split; [reflexivity | discriminate]).
    + destruct s1, s2; try discriminate;
        destruct (Z.compare e1 e2) eqn:He; try discriminate;
        apply Z.compare_eq_iff in He; subst e2;
        change (Pos.compare_cont Eq m1 m2) with (Pos.compare m1 m2);
        destruct (Pos.compare m1 m2) eqn:Hm; try discriminate;
        apply Pos.compare_eq_iff in Hm; subst m2;
        intros _; left; (split; [reflexivity | discriminate]).
  - intros [[<- Hn] | (s1 & s2 & -> & ->)]; [| reflexivity].
    destruct f as [s | s | | s m e]; try reflexivity; try congruence.
    + destruct s; reflexivity.
    + change (Pos.compare_cont Eq m m) with (Pos.compare m m).
      rewrite Z.compare_refl, Pos.compare_refl. destruct s; reflexivity.
Qed.

(** Two floats compare equal when they are the same float and not NaN, or
    when both are zeros. *)
Lemma eqb_true (a b : float) :
  (a =? b) = true <->
  (a = b /\ a <> nan) \/ ((a = 0 \/ a = -0) /\ (b = 0 \/ b = -0)).
Proof.
  rewrite eqb_spec, SFeqb_true. split.
  - intros [[Heq Hn] | (s1 & s2 & H1 & H2)].
    + left. split; [apply Prim2SF_inj, Heq |].
      intros ->. apply Hn. reflexivity.
    + right. apply of_spec_float in H1, H2. subst a b.
      split; [destruct s1 | destruct s2]; auto.
  - intros [[<- Hn] | [Ha Hb]].
    + left. split; [reflexivity |].
      intros H. apply Hn. apply Prim2SF_inj. rewrite H. reflexivity.
    + right.
      destruct Ha as [-> | ->], Hb as [-> | ->]; eexists; eexists; split; reflexivity.
Qed.

(** *** Raising *)

Lemma float_pow2_cases (a : float) :
  (exists square, float_pow2 a = Ok square) \/ float_pow2 a = Raise OverflowError.
Proof.
  unfold float_pow2.
  destruct (is_nan a); [left; eauto |].
  destruct (is_infinity a); [left; eauto |].
  destruct (a =? 0); [left; eauto |].
  destruct (is_infinity (a * a)); [right; reflexivity | left; eauto].
Qed.

Lemma float_pow2_overflow (a : float) :
  float_pow2 a = Raise OverflowError <->
  is_nan a = false /\ is_infinity a = false /\ is_infinity (a * a) = true.
Proof.
  unfold float_pow2. split.
  - destruct (is_nan a); [discriminate |].
    destruct (is_infinity a); [discriminate |].
    destruct (a =? 0); [discriminate |].
    destruct (is_infinity (a * a)); [auto | discriminate].
  - intros (-> & -> & Hsq).
    destruct (a =? 0) eqn:Hz.
    + destruct (zero_cases a Hz) as [-> | ->]; discriminate Hsq.
    + rewrite Hsq. reflexivity.
Qed.

Lemma float_truediv_pos (a d : float) :
  (0 <? d) = true -> float_truediv a (2 * d) = Ok (a / (2 * d)).
Proof.
  intros Hd. unfold float_truediv.
  destruct (zero_div_pos (2 * d) (mul_two_pos d Hd)) as [_ ->]. reflexivity.
Qed.

Lemma float_truediv_zero (a d : float) :
  (d =? 0) = true -> float_truediv a (2 * d) = Raise ZeroDivisionError.
Proof.
  intros Hd. destruct (zero_cases d Hd) as [-> | ->]; reflexivity.
Qed.

(** *** Signs *)

(** A rounded number has the sign it was given, unless it is NaN. *)
Lemma binary_round_aux_abs (m e : Z) (l : location) :
  SFabs (binary_round_aux prec emax false m e l) = binary_round_aux prec emax false m e l.
Proof.
  unfold binary_round_aux.
  destruct (shr_fexp prec emax m e l) as [mrs e'].
  destruct (shr_fexp prec emax _ e' loc_Exact) as [mrs' e''].
  destruct (shr_m mrs'); try reflexivity.
  destruct (e'' <=? emax - prec)%Z; reflexivity.
Qed.

Lemma binary_round_aux_opp (s : bool) (m e : Z) (l : location) :
  binary_round_aux prec emax (negb s) m e l
  = SFopp (binary_round_aux prec emax s m e l).
Proof.
  unfold binary_round_aux.
  destruct (shr_fexp prec emax m e l) as [mrs e'].
  destruct (shr_fexp prec emax _ e' loc_Exact) as [mrs' e''].
  destruct (shr_m mrs'); try reflexivity.
  destruct (e'' <=? emax - prec)%Z; reflexivity.
Qed.

Lemma SFmul_abs (x y : spec_float) :
  SFabs (SF64mul (SFabs x) (SFabs y)) = SF64mul (SFabs x) (SFabs y).
Proof.
  unfold SF64mul.
  destruct x as [sx | sx | | sx mx ex], y as [sy | sy | | sy my ey];
    try reflexivity.
  apply binary_round_aux_abs.
Qed.

Lemma SFdiv_abs (z p : spec_float) :
  SFabs z = z ->
  p = S754_infinity false \/ (exists m e, p = S754_finite false m e) ->
  SFabs (SF64div z p) = SF64div z p.
Proof.
  intros Hz Hp. unfold SF64div.
  destruct Hp as [-> | (m & e & ->)];
    destruct z as [sz | sz | | sz mz ez]; simpl in Hz; try reflexivity;
    try (injection Hz as <-; reflexivity).
  injection Hz as <-. unfold SFdiv. simpl.
  destruct (SFdiv_core_binary prec emax (Z.pos mz) ez (Z.pos m) e) as [[q e'] l].
  apply binary_round_aux_abs.
Qed.

(** The square of an absolute value over twice a positive float has no minus
    sign: it is its own absolute value. *)
Lemma square_over_pos_abs (r d : float) :
  (0 <? d) = true ->
  abs (abs r * abs r / (2 * d)) = abs r * abs r / (2 * d).
Proof.
  intros Hd. apply Prim2SF_inj.
  rewrite abs_spec, div_spec. apply SFdiv_abs.
  - rewrite mul_spec, abs_spec. apply SFmul_abs.
  - apply mul_two_pos, Hd.
Qed.

(** *** Opposites *)

Lemma SFmul_opp_r (x y : spec_float) :
  SF64mul x (SFopp y) = SFopp (SF64mul x y).
Proof.
  unfold SF64mul.
  destruct x as [sx | sx | | sx mx ex], y as [sy | sy | | sy my ey];
    simpl; try reflexivity; try (destruct sx, sy; reflexivity).
  replace (xorb sx (negb sy)) with (negb (xorb sx sy)) by (destruct sx, sy; reflexivity).
  apply binary_round_aux_opp.
Qed.

Lemma SFdiv_opp_r (x y : spec_float) :
  SF64div x (SFopp y) = SFopp (SF64div x y).
Proof.
  unfold SF64div.
  destruct x as [sx | sx | | sx mx ex], y as [sy | sy | | sy my ey];
    simpl; try reflexivity; try (destruct sx, sy; reflexivity).
  destruct (SFdiv_core_binary prec emax (Z.pos mx) ex (Z.pos my) ey) as [[q e'] l].
  replace (xorb sx (negb sy)) with (negb (xorb sx sy)) by (destruct sx, sy; reflexivity).
  apply binary_round_aux_opp.
Qed.

Lemma mul_opp_r (a b : float) : a * - b = - (a * b).
Proof.
  apply Prim2SF_inj. rewrite opp_spec, !mul_spec, opp_spec. apply SFmul_opp_r.
Qed.

Lemma div_opp_r (a b : float) : a / - b = - (a / b).
Proof.
  apply Prim2SF_inj. rewrite opp_spec, !div_spec, opp_spec. apply SFdiv_opp_r.
Qed.

Lemma eqb_opp_zero (a : float) : (- a =? 0) = (a =? 0).
Proof.
  rewrite !eqb_spec, opp_spec. change (Prim2SF 0) with (S754_zero false).
  destruct (Prim2SF a) as [s | s | | s m e]; try destruct s; reflexivity.
Qed.

(** *** Vectors on binary64 *)

(** A NaN compares below nothing and above nothing. *)
Lemma is_nan_ltb (c : float) :
  is_nan c = true -> (c <? -1) = false /\ (1 <? c) = false.
Proof.
  unfold is_nan. intros H. apply negb_true_iff in H.
  assert (Hc : c = nan).
  { destruct (Leibniz.eqb c nan) eqn:Hl; [apply Leibniz.eqb_spec, Hl |].
    exfalso.
    assert (Ht : (c =? c) = true); [| congruence].
    apply eqb_true. left. split; [reflexivity |].
    intros Hn. apply Leibniz.eqb_spec in Hn. congruence. }
  subst c. split; reflexivity.
Qed.

Lemma math_acos_cases (acos : float -> float) (c : float) :
  (is_nan c = true -> math_acos acos c = Ok c) /\
  ((c <? -1) = true \/ (1 <? c) = true -> math_acos acos c = Raise ValueError) /\
  (is_nan c = false -> (c <? -1) = false -> (1 <? c) = false ->
   math_acos acos c = Ok (acos c)).
Proof.
  unfold math_acos. repeat apply conj.
  - intros ->. reflexivity.
  - intros H. destruct (is_nan c) eqn:Hn.
    + destruct (is_nan_ltb c Hn) as [H1 H2]. rewrite H1, H2 in H.
      destruct H; discriminate.
    + destruct H as [-> | ->]; [reflexivity |].
      rewrite orb_true_r. reflexivity.
  - intros -> -> ->. reflexivity.
Qed.

(** On binary64 [normalized] raises nothing: it is [zeros()] when the
    computed magnitude compares equal to zero and the vector over the
    computed magnitude otherwise. *)
Lemma normalized_float (v : Vector2D.t) :
  exists (m : float) (w : Vector2D.t),
    Vector2D.magnitude v = Ok m /\
    Vector2D.normalized v = Ok w /\
    ((m =? 0) = true -> w = Vector2D.zeros) /\
    ((m =? 0) = false ->
     Vector2D.x w = Vector2D.x v / m /\ Vector2D.y w = Vector2D.y v / m).
Proof.
  unfold Vector2D.normalized, Vector2D.magnitude, bind.
  exists (np_norm (Vector2D._array v)).
  destruct (np_norm (Vector2D._array v) =? 0) eqn:Hm; simpl.
  - exists Vector2D.zeros. repeat split; congruence.
  - eexists. split; [reflexivity |]. split; [reflexivity |].
    split; [discriminate |]. intros _. split; reflexivity.
Qed.

(** On binary64 [angle_from] is 0.0 when one of the two computed magnitudes
    compares equal to zero, and otherwise [math.acos] of the rounded
    cosine. *)
Lemma angle_from_float (acos : float -> float) (v w : Vector2D.t) :
  exists mv mw : float,
    Vector2D.magnitude v = Ok mv /\
    Vector2D.magnitude w = Ok mw /\
    ((mv =? 0) = true \/ (mw =? 0) = true ->
     Vector2D.angle_from acos v w = Ok 0) /\
    ((mv =? 0) = false -> (mw =? 0) = false ->
     Vector2D.angle_from acos v w
     = math_acos acos
         (round4 (np_dot (Vector2D._array w) (Vector2D._array v) / (mw * mv)))).
Proof.
  unfold Vector2D.angle_from, Vector2D.abs, Vector2D.magnitude, Vector2D.dot, bind.
  exists (np_norm (Vector2D._array v)), (np_norm (Vector2D._array w)).
  split; [reflexivity |]. split; [reflexivity |]. split.
  - intros [-> | Hw]; [reflexivity |].
    rewrite Hw. destruct (np_norm (Vector2D._array v) =? 0); reflexivity.
  - intros -> ->. reflexivity.
Qed.


(** *** Stopping on binary64 *)

Lemma is_nan_eq (a : float) : is_nan a = true -> a = nan.
Proof.
  unfold is_nan. intros H. apply negb_true_iff in H.
  destruct (Leibniz.eqb a nan) eqn:Hl; [apply Leibniz.eqb_spec, Hl |].
  exfalso.
  assert (Ht : (a =? a) = true); [| congruence].
  apply eqb_true. left. split; [reflexivity |].
  intros Hn. apply Leibniz.eqb_spec in Hn. congruence.
Qed.

Lemma is_infinity_eq (a : float) :
  is_infinity a = true -> a = infinity \/ a = neg_infinity.
Proof.
  unfold is_infinity. rewrite eqb_spec, abs_spec.
  change (Prim2SF infinity) with (S754_infinity false).
  destruct (Prim2SF a) as [s | s | | s m e] eqn:Ha; simpl; try discriminate.
  intros _. apply of_spec_float in Ha. subst a.
  destruct s; [right | left]; reflexivity.
Qed.

(** When the square is returned, it is the float product. *)
Lemma float_pow2_ok (a square : float) :
  float_pow2 a = Ok square -> square = a * a.
Proof.
  unfold float_pow2.
  destruct (is_nan a) eqn:Hn.
  { intros H. apply is_nan_eq in Hn. subst a.
    apply (f_equal (fun r => match r with Ok x => x | Raise _ => 0 end)) in H.
    rewrite <- H. reflexivity. }
  destruct (is_infinity a) eqn:Hi.
  { intros H.
    apply (f_equal (fun r => match r with Ok x => x | Raise _ => 0 end)) in H.
    rewrite <- H.
    destruct (is_infinity_eq a Hi) as [-> | ->]; reflexivity. }
  destruct (a =? 0) eqn:Hz.
  { intros H.
    apply (f_equal (fun r => match r with Ok x => x | Raise _ => 0 end)) in H.
    rewrite <- H.
    destruct (zero_cases a Hz) as [-> | ->]; reflexivity. }
  destruct (is_infinity (a * a)); [discriminate |].
  intros H.
  apply (f_equal (fun r => match r with Ok x => x | Raise _ => 0 end)) in H.
  symmetry. exact H.
Qed.

Lemma ltb_zero_false (r : float) : (r =? 0) = true -> (0 <? r) = false.
Proof. intros H. destruct (zero_cases r H) as [-> | ->]; reflexivity. Qed.

Lemma abs_zero (r : float) : (r =? 0) = true -> abs r = 0.
Proof. intros H. destruct (zero_cases r H) as [-> | ->]; reflexivity. Qed.

(** On binary64, for [d > 0], [delta_orientation_to_stop] raises
    [OverflowError] exactly when the rotation is finite and its square
    overflows; otherwise it returns the float quotient [q] of the square by
    [2.0 * d] when the rotation compares above zero, and [- q] when it does
    not.  The quotient [q] has no minus sign.  For a rotation that is a zero
    the result is the negative zero. *)
Lemma delta_orientation_to_stop_float (k : Kinematics.t) (d : float) :
  (0 <? d) = true ->
  (Kinematics.delta_orientation_to_stop k d = Raise OverflowError <->
   is_nan (abs (Kinematics.rotation k)) = false /\
   is_infinity (abs (Kinematics.rotation k)) = false /\
   is_infinity (abs (Kinematics.rotation k) * abs (Kinematics.rotation k)) = true) /\
  (Kinematics.delta_orientation_to_stop k d = Raise OverflowError \/
   Kinematics.delta_orientation_to_stop k d
   = Ok (if 0 <? Kinematics.rotation k
         then abs (Kinematics.rotation k) * abs (Kinematics.rotation k) / (2 * d)
         else - (abs (Kinematics.rotation k) * abs (Kinematics.rotation k) / (2 * d)))) /\
  abs (abs (Kinematics.rotation k) * abs (Kinematics.rotation k) / (2 * d))
  = abs (Kinematics.rotation k) * abs (Kinematics.rotation k) / (2 * d) /\
  ((Kinematics.rotation k =? 0) = true ->
   Kinematics.delta_orientation_to_stop k d = Ok (-0)).
Proof.
  intros Hd.
  split; [| split; [| split]].
  - unfold Kinematics.delta_orientation_to_stop.
    rewrite <- float_pow2_overflow.
    destruct (float_pow2_cases (abs (Kinematics.rotation k))) as [[sq Hs] | Hs];
      rewrite Hs; unfold bind.
    + rewrite float_truediv_pos by exact Hd. split; discriminate.
    + split; reflexivity.
  - unfold Kinematics.delta_orientation_to_stop.
    destruct (float_pow2_cases (abs (Kinematics.rotation k))) as [[sq Hs] | Hs];
      rewrite Hs; unfold bind.
    + right. rewrite float_truediv_pos by exact Hd.
      apply float_pow2_ok in Hs. subst sq. reflexivity.
    + left. reflexivity.
  - apply square_over_pos_abs, Hd.
  - apply delta_orientation_to_stop_zero, Hd.
Qed.

(** *** Where float64 leaves the real numbers

    The computed magnitude is [sqrt (x * x + y * y)]: the squares overflow to
    infinity from 2^512 on and underflow below 2^-537. *)

(** C7, as stated, fails on float64.  The vector (2^600, 2^600) has the
    computed magnitude infinity, which is not zero, and its normalisation is
    (0, 0), of magnitude 0.  The vector (9 * 2^-540, 0) has the computed
    magnitude 2^-537 and its normalisation is (1.125, 0), of magnitude
    1.125. *)
Lemma normalized_float_fails :
  Vector2D.magnitude (Vector2D.init 0x1p+600 0x1p+600) = Ok infinity /\
  Vector2D.normalized (Vector2D.init 0x1p+600 0x1p+600) = Ok (Vector2D.init 0 0) /\
  Vector2D.magnitude (Vector2D.init 0 0) = Ok 0 /\
  Vector2D.magnitude (Vector2D.init 0x1.2p-537 0) = Ok 0x1p-537 /\
  Vector2D.normalized (Vector2D.init 0x1.2p-537 0) = Ok (Vector2D.init 1.125 0) /\
  Vector2D.magnitude (Vector2D.init 1.125 0) = Ok 1.125.
Proof. repeat apply conj; reflexivity. Qed.

(** C6, as stated, fails on float64.  For v = (9 * 2^-540, 0) and w = (1, 0)
    the computed magnitudes are 2^-537 and 1, the computed cosine is 1.125,
    and [math.acos] raises [ValueError], whatever the C library's [acos].
    For v = w = (2^600, 0) the computed magnitude is infinity, the cosine is
    NaN and so is the result. *)
Lemma angle_from_float_fails :
  Vector2D.magnitude (Vector2D.init 0x1.2p-537 0) = Ok 0x1p-537 /\
  Vector2D.magnitude (Vector2D.init 1 0) = Ok 1 /\
  round4 (0x1.2p-537 / (1 * 0x1p-537)) = 1.125 /\
  (forall acos : float -> float,
      Vector2D.angle_from acos (Vector2D.init 0x1.2p-537 0) (Vector2D.init 1 0)
      = Raise ValueError) /\
  Vector2D.magnitude (Vector2D.init 0x1p+600 0) = Ok infinity /\
  (forall acos : float -> float,
      Vector2D.angle_from acos (Vector2D.init 0x1p+600 0) (Vector2D.init 0x1p+600 0)
      = Ok nan).
Proof. repeat apply conj; try reflexivity; intros acos; reflexivity. Qed.



End Binary64Facts.

(** ** On both *)

Module StoppingFacts.

Import Floats.
Local Open Scope R_scope.

(** C5, amended.  On real numbers, for a deceleration [d > 0],
    [delta_orientation_to_stop] raises nothing and returns
    [rotation^2 / (2 d)] with the sign of the rotation: that positive number
    for a positive rotation, its opposite for a negative one, and zero for a
    zero rotation.  On binary64, for [d > 0], it raises [OverflowError]
    exactly when the rotation is finite and its square overflows; otherwise
    it returns the float quotient [q] of the square by [2.0 * d] when the
    rotation compares above zero and [- q] when it does not, where [q] has no
    minus sign; for a rotation that is a zero it returns the negative
    zero. *)
Theorem delta_orientation_to_stop_spec :
  (forall (k : Ideal.Kinematics.t) (d : R),
      0 < d ->
      exists value : R,
        Ideal.Kinematics.delta_orientation_to_stop k d = Ok value /\
        Rabs value = Ideal.Kinematics.rotation k ^ 2 / (2 * d) /\
        (0 < Ideal.Kinematics.rotation k ->
         value = Ideal.Kinematics.rotation k ^ 2 / (2 * d) /\ 0 < value) /\
        (Ideal.Kinematics.rotation k < 0 ->
         value = - (Ideal.Kinematics.rotation k ^ 2 / (2 * d)) /\ value < 0) /\
        (Ideal.Kinematics.rotation k = 0 -> value = 0)) /\
  (forall (k : Binary64.Kinematics.t) (d : float),
      (0 <? d)%float = true ->
      (Binary64.Kinematics.delta_orientation_to_stop k d = Raise OverflowError <->
       is_nan (abs (Binary64.Kinematics.rotation k)) = false /\
       is_infinity (abs (Binary64.Kinematics.rotation k)) = false /\
       is_infinity (abs (Binary64.Kinematics.rotation k)
                    * abs (Binary64.Kinematics.rotation k))%float = true) /\
      (Binary64.Kinematics.delta_orientation_to_stop k d = Raise OverflowError \/
       Binary64.Kinematics.delta_orientation_to_stop k d
       = Ok (if (0 <? Binary64.Kinematics.rotation k)%float
             then (abs (Binary64.Kinematics.rotation k)
                   * abs (Binary64.Kinematics.rotation k) / (2 * d))%float
             else (- (abs (Binary64.Kinematics.rotation k)
                      * abs (Binary64.Kinematics.rotation k) / (2 * d)))%float)) /\
      abs (abs (Binary64.Kinematics.rotation k)
           * abs (Binary64.Kinematics.rotation k) / (2 * d))%float
      = (abs (Binary64.Kinematics.rotation k)
         * abs (Binary64.Kinematics.rotation k) / (2 * d))%float /\
      ((Binary64.Kinematics.rotation k =? 0)%float = true ->
       Binary64.Kinematics.delta_orientation_to_stop k d = Ok (-0)%float)).
Proof.
  split.
  - exact IdealFacts.delta_orientation_to_stop_ideal.
  - exact Binary64Facts.delta_orientation_to_stop_float.
Qed.

(** The rotation -3 on real numbers and the rotation 0 on binary64, with the
    deceleration 1. *)
Lemma delta_orientation_to_stop_spec_witness :
  (exists value : R,
      Ideal.Kinematics.delta_orientation_to_stop
        (Ideal.Kinematics.init Ideal.Vector2D.zeros 0 Ideal.Vector2D.zeros (-3)) 1
      = Ok value /\ value = - ((-3) ^ 2 / (2 * 1))) /\
  Binary64.Kinematics.delta_orientation_to_stop
    (Binary64.Kinematics.init (Binary64.Vector2D.init 0 0) 0
                              (Binary64.Vector2D.init 0 0) 0) 1
  = Ok (-0)%float.
Proof.
  split.
  - destruct (proj1 delta_orientation_to_stop_spec
                (Ideal.Kinematics.init Ideal.Vector2D.zeros 0 Ideal.Vector2D.zeros (-3)) 1)
      as (value & Hv & _ & _ & Hneg & _).
    + lra.
    + exists value. split; [exact Hv |]. apply Hneg. simpl. lra.
  - apply (proj2 delta_orientation_to_stop_spec); reflexivity.
Defined.



End StoppingFacts.

(** ** Vectors, on both *)

Module VectorReadings.

Import Floats.
Local Open Scope R_scope.

(** C7, amended.  On real numbers, the normalisation of a vector of nonzero
    magnitude has magnitude 1 and the direction of the vector (it is the
    vector times the positive number [1 / magnitude]), and the normalisation
    of a vector of magnitude zero is [zeros()].  On binary64, [normalized]
    raises nothing: it is [zeros()] when the computed magnitude compares
    equal to 0.0, and the vector divided componentwise by the computed
    magnitude otherwise. *)
Theorem normalized_readings :
  (forall v : Ideal.Vector2D.t,
      (Ideal.Vector2D.magnitude v <> 0 ->
       Ideal.Vector2D.magnitude (Ideal.Vector2D.normalized v) = 1 /\
       0 < / Ideal.Vector2D.magnitude v /\
       Ideal.Vector2D.normalized v
       = Ideal.Vector2D.mul v (/ Ideal.Vector2D.magnitude v) /\
       v = Ideal.Vector2D.mul (Ideal.Vector2D.normalized v)
                              (Ideal.Vector2D.magnitude v)) /\
      (Ideal.Vector2D.magnitude v = 0 ->
       Ideal.Vector2D.normalized v = Ideal.Vector2D.zeros)) /\
  (forall v : Binary64.Vector2D.t,
      exists (m : float) (w : Binary64.Vector2D.t),
        Binary64.Vector2D.magnitude v = Ok m /\
        Binary64.Vector2D.normalized v = Ok w /\
        ((m =? 0)%float = true -> w = Binary64.Vector2D.zeros) /\
        ((m =? 0)%float = false ->
         Binary64.Vector2D.x w = (Binary64.Vector2D.x v / m)%float /\
         Binary64.Vector2D.y w = (Binary64.Vector2D.y v / m)%float)).
Proof.
  split.
  - exact IdealFacts.normalized_spec.
  - exact Binary64Facts.normalized_float.
Qed.

(** The vector (3, 4) on real numbers and the zero vector on binary64. *)
Lemma normalized_readings_witness :
  Ideal.Vector2D.magnitude (Ideal.Vector2D.normalized (Ideal.Vector2D.init 3 4)) = 1 /\
  Binary64.Vector2D.normalized (Binary64.Vector2D.init 0 0)
  = Ok Binary64.Vector2D.zeros.
Proof.
  split.
  - apply (proj1 normalized_readings (Ideal.Vector2D.init 3 4)).
    rewrite (IdealFacts.magnitude_init 3 4 5); lra.
  - destruct (proj2 normalized_readings (Binary64.Vector2D.init 0 0))
      as (m & w & Hm & Hw & Hzero & _).
    rewrite Hw. f_equal. apply Hzero.
    apply (f_equal (fun r => match r with Ok a => (a =? 0)%float | Raise _ => false end))
      in Hm.
    symmetry. exact Hm.
Defined.

(** C6, amended.  On real numbers, [angle_from] raises nothing and returns an
    angle between 0 and pi: 0 when one of the two vectors has magnitude zero,
    and otherwise the arc cosine of the cosine rounded to 4 decimals; the
    angle of a nonzero vector from itself is 0 and from its opposite is pi.
    On binary64, [angle_from] is 0.0 when one of the two computed magnitudes
    compares equal to 0.0, and otherwise [math.acos] of the rounded cosine:
    NaN for a NaN, [ValueError] for a rounded cosine below -1 or above 1,
    and the C library's [acos] in between. *)
Theorem angle_from_readings :
  (forall v w : Ideal.Vector2D.t,
      (exists angle : R,
          Ideal.Vector2D.angle_from v w = Ok angle /\ 0 <= angle <= PI) /\
      (Ideal.Vector2D.magnitude v = 0 \/ Ideal.Vector2D.magnitude w = 0 ->
       Ideal.Vector2D.angle_from v w = Ok 0) /\
      (Ideal.Vector2D.magnitude v <> 0 -> Ideal.Vector2D.magnitude w <> 0 ->
       Ideal.Vector2D.angle_from v w
       = Ok (acos (Ideal.round
                     (Ideal.Vector2D.dot w v
                      / (Ideal.Vector2D.abs w * Ideal.Vector2D.abs v)) 4))) /\
      (Ideal.Vector2D.magnitude v <> 0 ->
       Ideal.Vector2D.angle_from v v = Ok 0 /\
       Ideal.Vector2D.angle_from v (Ideal.Vector2D.neg v) = Ok PI)) /\
  (forall (acos : float -> float) (v w : Binary64.Vector2D.t),
      exists mv mw : float,
        Binary64.Vector2D.magnitude v = Ok mv /\
        Binary64.Vector2D.magnitude w = Ok mw /\
        ((mv =? 0)%float = true \/ (mw =? 0)%float = true ->
         Binary64.Vector2D.angle_from acos v w = Ok 0%float) /\
        ((mv =? 0)%float = false -> (mw =? 0)%float = false ->
         Binary64.Vector2D.angle_from acos v w
         = Binary64.math_acos acos
             (Binary64.round4
                (Binary64.np_dot (Binary64.Vector2D._array w)
                                 (Binary64.Vector2D._array v) / (mw * mv))%float))) /\
  (forall (acos : float -> float) (c : float),
      (is_nan c = true -> Binary64.math_acos acos c = Ok c) /\
      ((c <? -1)%float = true \/ (1 <? c)%float = true ->
       Binary64.math_acos acos c = Raise ValueError) /\
      (is_nan c = false -> (c <? -1)%float = false -> (1 <? c)%float = false ->
       Binary64.math_acos acos c = Ok (acos c))).
Proof.
  split; [| split].
  - exact IdealFacts.angle_from_spec.
  - exact Binary64Facts.angle_from_float.
  - exact Binary64Facts.math_acos_cases.
Qed.

(** The vector (3, 4) against itself on real numbers, and [math.acos] of
    1.125 on binary64. *)
Lemma angle_from_readings_witness :
  Ideal.Vector2D.angle_from (Ideal.Vector2D.init 3 4) (Ideal.Vector2D.init 3 4)
  = Ok 0 /\
  Binary64.math_acos (fun a => a) 1.125 = Raise ValueError.
Proof.
  split.
  - apply (proj1 angle_from_readings (Ideal.Vector2D.init 3 4) (Ideal.Vector2D.init 3 4)).
    rewrite (IdealFacts.magnitude_init 3 4 5); lra.
  - apply (proj2 (proj2 angle_from_readings) (fun a => a) 1.125%float).
    right. reflexivity.
Defined.

End VectorReadings.

(** * Further properties *)

(** ** Vectors, on real numbers *)

Module VectorLaws.

Import Ideal IdealFacts.
Local Open Scope R_scope.

Lemma magnitude_dot (v : Vector2D.t) :
  Vector2D.magnitude v = sqrt (Vector2D.dot v v).
Proof. reflexivity. Qed.

Lemma dot_rotated (v w : Vector2D.t) (angle : R) :
  Vector2D.dot (Vector2D.rotated v angle) (Vector2D.rotated w angle)
  = Vector2D.dot v w.
Proof.
  pose proof (sin2_cos2 angle) as H. unfold Rsqr in H.
  destruct v as [[vx vy]], w as [[wx wy]]. vector_unfold.
  pythagoras H.
Qed.

Lemma magnitude_rotated (v : Vector2D.t) (angle : R) :
  Vector2D.magnitude (Vector2D.rotated v angle) = Vector2D.magnitude v.
Proof. rewrite !magnitude_dot, dot_rotated. reflexivity. Qed.

(** X1.  A rotation keeps lengths and dot products: [rotated] changes neither
    the magnitude of a vector nor the dot product of two vectors rotated by
    the same angle. *)
Theorem rotated_isometry (v w : Vector2D.t) (angle : R) :
  Vector2D.magnitude (Vector2D.rotated v angle) = Vector2D.magnitude v /\
  Vector2D.dot (Vector2D.rotated v angle) (Vector2D.rotated w angle)
  = Vector2D.dot v w.
Proof.
  split.
  - apply magnitude_rotated.
  - apply dot_rotated.
Qed.

(** X2.  Rotations compose by adding their angles; the rotation by 0 and the
    rotation by a full turn are the identity, and the rotation by the
    opposite angle undoes a rotation. *)
Theorem rotated_compose (v : Vector2D.t) (a b : R) :
  Vector2D.rotated (Vector2D.rotated v a) b = Vector2D.rotated v (a + b) /\
  Vector2D.rotated v 0 = v /\
  Vector2D.rotated v (2 * PI) = v /\
  Vector2D.rotated (Vector2D.rotated v a) (- a) = v.
Proof.
  repeat apply conj.
  - apply rotated_add_angle.
  - apply rotated_0.
  - destruct v as [[vx vy]]. vector_unfold. rewrite cos_2PI, sin_2PI.
    f_equal. f_equal; ring.
  - apply rotated_neg_rotated.
Qed.

Lemma rotated_sub (v w : Vector2D.t) (angle : R) :
  Vector2D.rotated (Vector2D.sub v w) angle
  = Vector2D.sub (Vector2D.rotated v angle) (Vector2D.rotated w angle).
Proof.
  destruct v as [[vx vy]], w as [[wx wy]]. vector_unfold. f_equal. f_equal; ring.
Qed.

Lemma rotated_mul (v : Vector2D.t) (s angle : R) :
  Vector2D.rotated (Vector2D.mul v s) angle
  = Vector2D.mul (Vector2D.rotated v angle) s.
Proof.
  destruct v as [[vx vy]]. vector_unfold. f_equal. f_equal; ring.
Qed.

Lemma add_comm (v w : Vector2D.t) : Vector2D.add v w = Vector2D.add w v.
Proof.
  destruct v as [[vx vy]], w as [[wx wy]]. vector_unfold. f_equal. f_equal; ring.
Qed.

Lemma add_assoc (u v w : Vector2D.t) :
  Vector2D.add (Vector2D.add u v) w = Vector2D.add u (Vector2D.add v w).
Proof.
  destruct u as [[ux uy]], v as [[vx vy]], w as [[wx wy]]. vector_unfold.
  f_equal. f_equal; ring.
Qed.

(** X3.  [rotated] is linear: it distributes over the sum and the difference
    of vectors and commutes with the product by a scalar. *)
Theorem rotated_linear (v w : Vector2D.t) (s angle : R) :
  Vector2D.rotated (Vector2D.add v w) angle
  = Vector2D.add (Vector2D.rotated v angle) (Vector2D.rotated w angle) /\
  Vector2D.rotated (Vector2D.sub v w) angle
  = Vector2D.sub (Vector2D.rotated v angle) (Vector2D.rotated w angle) /\
  Vector2D.rotated (Vector2D.mul v s) angle
  = Vector2D.mul (Vector2D.rotated v angle) s /\
  Vector2D.rotated (Vector2D.neg v) angle
  = Vector2D.neg (Vector2D.rotated v angle).
Proof.
  repeat apply conj.
  - apply rotated_add.
  - apply rotated_sub.
  - apply rotated_mul.
  - destruct v as [[vx vy]]. vector_unfold. f_equal. f_equal; ring.
Qed.

(** X4.  The sum of vectors is commutative and associative with [zeros()] as
    its neutral element, [v - w] is [v + (-w)], the reflected operators give
    [other + self] as [self + other] and [other - self] as the opposite of
    [self - other], and the product by a scalar distributes over the sum. *)
Theorem vector_space (u v w : Vector2D.t) (s r : R) :
  Vector2D.add v w = Vector2D.add w v /\
  Vector2D.add (Vector2D.add u v) w = Vector2D.add u (Vector2D.add v w) /\
  Vector2D.add v Vector2D.zeros = v /\
  Vector2D.add v (Vector2D.neg v) = Vector2D.zeros /\
  Vector2D.sub v w = Vector2D.add v (Vector2D.neg w) /\
  Vector2D.radd v w = Vector2D.add w v /\
  Vector2D.rsub v w = Vector2D.neg (Vector2D.sub v w) /\
  Vector2D.mul (Vector2D.add v w) s
  = Vector2D.add (Vector2D.mul v s) (Vector2D.mul w s) /\
  Vector2D.mul v (s + r) = Vector2D.add (Vector2D.mul v s) (Vector2D.mul v r) /\
  Vector2D.mul (Vector2D.mul v s) r = Vector2D.mul v (s * r).
Proof.
  repeat apply conj; try apply add_assoc; try apply add_zeros_r; try apply mul_mul;
    destruct v as [[vx vy]], w as [[wx wy]]; unfold Vector2D.radd, Vector2D.rsub;
    vector_unfold; f_equal; f_equal; ring.
Qed.

Lemma dot_comm (v w : Vector2D.t) : Vector2D.dot v w = Vector2D.dot w v.
Proof. destruct v as [[vx vy]], w as [[wx wy]]. vector_unfold. ring. Qed.

Lemma dot_add_l (u v w : Vector2D.t) :
  Vector2D.dot (Vector2D.add u v) w = Vector2D.dot u w + Vector2D.dot v w.
Proof.
  destruct u as [[ux uy]], v as [[vx vy]], w as [[wx wy]]. vector_unfold. ring.
Qed.

Lemma dot_mul_l (v w : Vector2D.t) (s : R) :
  Vector2D.dot (Vector2D.mul v s) w = s * Vector2D.dot v w.
Proof. destruct v as [[vx vy]], w as [[wx wy]]. vector_unfold. ring. Qed.

Lemma magnitude_le (v : Vector2D.t) (m : R) :
  0 <= m -> Vector2D.dot v v <= m * m -> Vector2D.magnitude v <= m.
Proof.
  intros Hm Hsq. pose proof (magnitude_nonneg v) as Hv.
  pose proof (magnitude_sqr v) as Hq.
  destruct (Rle_dec (Vector2D.magnitude v) m) as [Hle | Hgt]; [exact Hle | nra].
Qed.

(** X5.  The Cauchy-Schwarz and the triangle inequalities: the dot product of
    two vectors is at most the product of their magnitudes, in absolute
    value, and the magnitude of a sum is at most the sum of the magnitudes. *)
Theorem cauchy_schwarz_triangle (v w : Vector2D.t) :
  Rabs (Vector2D.dot v w) <= Vector2D.magnitude v * Vector2D.magnitude w /\
  Vector2D.magnitude (Vector2D.add v w)
  <= Vector2D.magnitude v + Vector2D.magnitude w.
Proof.
  pose proof (dot_bounded w v) as Hcs.
  pose proof (magnitude_nonneg v) as Hv. pose proof (magnitude_nonneg w) as Hw.
  split.
  - apply Rabs_le. lra.
  - apply magnitude_le; [lra |].
    rewrite dot_add_l.
    replace (Vector2D.dot v (Vector2D.add v w))
      with (Vector2D.dot v v + Vector2D.dot v w)
      by (rewrite (dot_comm v (Vector2D.add v w)), dot_add_l, (dot_comm w v); ring).
    replace (Vector2D.dot w (Vector2D.add v w))
      with (Vector2D.dot v w + Vector2D.dot w w)
      by (rewrite (dot_comm w (Vector2D.add v w)), dot_add_l; ring).
    rewrite <- (magnitude_sqr v), <- (magnitude_sqr w). nra.
Qed.

(** *** Projection *)

Lemma projected_to_nonzero (v w : Vector2D.t) :
  Vector2D.magnitude w <> 0 ->
  Vector2D.projected_to v w
  = Vector2D.mul w (Vector2D.dot v w / Vector2D.dot w w).
Proof.
  intros Hw. unfold Vector2D.projected_to, Vector2D.abs.
  apply float_eq_false in Hw as Hw'. rewrite Hw'.
  rewrite normalized_nonzero by exact Hw.
  rewrite truediv_mul, !mul_mul, <- magnitude_sqr.
  f_equal. field. exact Hw.
Qed.

(** X6.  [projected_to] is the orthogonal projection on the line of a
    nonzero [other]: a multiple of [other] such that what is left of [self]
    is perpendicular to [other]; projecting twice changes nothing, and the
    projection is no longer than [self].  On an [other] of magnitude zero it
    is [zeros()]. *)
Theorem projected_to_spec (v w : Vector2D.t) :
  (Vector2D.magnitude w <> 0 ->
   Vector2D.projected_to v w
   = Vector2D.mul w (Vector2D.dot v w / Vector2D.dot w w) /\
   Vector2D.dot (Vector2D.sub v (Vector2D.projected_to v w)) w = 0 /\
   Vector2D.projected_to (Vector2D.projected_to v w) w
   = Vector2D.projected_to v w /\
   Vector2D.magnitude (Vector2D.projected_to v w) <= Vector2D.magnitude v) /\
  (Vector2D.magnitude w = 0 -> Vector2D.projected_to v w = Vector2D.zeros).
Proof.
  split.
  - intros Hw.
    pose proof (magnitude_sqr w) as Hq. pose proof (magnitude_nonneg w) as Hp.
    assert (Hd : Vector2D.dot w w <> 0) by (rewrite <- Hq; nra).
    assert (Hdp : 0 < Vector2D.dot w w) by (rewrite <- Hq; nra).
    repeat apply conj.
    + apply projected_to_nonzero, Hw.
    + rewrite projected_to_nonzero by exact Hw.
      set (c := Vector2D.dot v w / Vector2D.dot w w).
      assert (Hc : c * Vector2D.dot w w = Vector2D.dot v w)
        by (unfold c; field; exact Hd).
      clearbody c.
      destruct v as [[vx vy]], w as [[wx wy]]. vector_unfold. lra.
    + rewrite !projected_to_nonzero by exact Hw.
      rewrite dot_mul_l. f_equal. field. exact Hd.
    + rewrite projected_to_nonzero by exact Hw.
      pose proof (dot_bounded w v) as Hcs.
      pose proof (magnitude_nonneg v) as Hv.
      apply magnitude_le; [exact Hv |].
      rewrite dot_mul_l, (dot_comm w (Vector2D.mul _ _)), dot_mul_l.
      set (d := Vector2D.dot v w) in *. set (q := Vector2D.dot w w) in *.
      replace (d / q * (d / q * q)) with (d * d / q) by (field; exact Hd).
      apply Rmult_le_reg_r with q; [exact Hdp |].
      replace (d * d / q * q) with (d * d) by (field; exact Hd).
      rewrite <- Hq. nra.
  - intros Hw. unfold Vector2D.projected_to, Vector2D.abs.
    apply float_eq_true in Hw. rewrite Hw. reflexivity.
Qed.

Example projected_to_example :
  Vector2D.projected_to (Vector2D.init 2 2) (Vector2D.init 1 0) = Vector2D.init 2 0.
Proof.
  rewrite projected_to_nonzero by (rewrite (magnitude_init 1 0 1); lra).
  vector_unfold. f_equal. f_equal; field.
Qed.

(** The projection of (2, 2) on (1, 0) is a multiple of (1, 0), and on the
    zero vector it is the zero vector. *)
Lemma projected_to_spec_witness :
  Vector2D.projected_to (Vector2D.init 2 2) (Vector2D.init 1 0)
  = Vector2D.mul (Vector2D.init 1 0)
      (Vector2D.dot (Vector2D.init 2 2) (Vector2D.init 1 0)
       / Vector2D.dot (Vector2D.init 1 0) (Vector2D.init 1 0)) /\
  Vector2D.projected_to (Vector2D.init 2 2) Vector2D.zeros = Vector2D.zeros.
Proof.
  assert (H1 : Vector2D.magnitude (Vector2D.init 1 0) = 1)
    by (apply magnitude_init; lra).
  assert (H0 : Vector2D.magnitude Vector2D.zeros = 0)
    by (apply magnitude_init; lra).
  split.
  - apply (projected_to_spec (Vector2D.init 2 2) (Vector2D.init 1 0)).
    rewrite H1. lra.
  - apply (projected_to_spec (Vector2D.init 2 2) Vector2D.zeros). exact H0.
Defined.

(** *** Angles between vectors *)

Lemma angle_from_comm (v w : Vector2D.t) :
  Vector2D.angle_from v w = Vector2D.angle_from w v.
Proof.
  unfold Vector2D.angle_from.
  rewrite orb_comm, (dot_comm w v), (Rmult_comm (Vector2D.abs w)).
  reflexivity.
Qed.

(** X7.  [angle_from] is symmetric in its two vectors, does not change when
    both are rotated by the same angle, and is pi/2 for two nonzero
    perpendicular vectors. *)
Theorem angle_from_symmetric (v w : Vector2D.t) (angle : R) :
  Vector2D.angle_from v w = Vector2D.angle_from w v /\
  Vector2D.angle_from (Vector2D.rotated v angle) (Vector2D.rotated w angle)
  = Vector2D.angle_from v w /\
  (Vector2D.magnitude v <> 0 -> Vector2D.magnitude w <> 0 ->
   Vector2D.dot v w = 0 -> Vector2D.angle_from v w = Ok (PI / 2)).
Proof.
  repeat apply conj.
  - apply angle_from_comm.
  - unfold Vector2D.angle_from, Vector2D.abs.
    rewrite !magnitude_dot, !dot_rotated. reflexivity.
  - intros Hv Hw Hd.
    rewrite angle_from_nonzero by assumption.
    rewrite dot_comm, Hd. unfold Rdiv. rewrite Rmult_0_l.
    rewrite (round_IZR 0), acos_0. reflexivity.
Qed.

(** The vectors (3, 4) and (-4, 3) are perpendicular. *)
Lemma angle_from_symmetric_witness :
  Vector2D.angle_from (Vector2D.init 3 4) (Vector2D.init (-4) 3) = Ok (PI / 2).
Proof.
  apply (angle_from_symmetric (Vector2D.init 3 4) (Vector2D.init (-4) 3) 0).
  - rewrite (magnitude_init 3 4 5); lra.
  - rewrite (magnitude_init (-4) 3 5); lra.
  - vector_unfold. lra.
Defined.

Lemma rint_near (k : Z) (r : R) :
  IZR k - / 2 < r < IZR k + / 2 -> rint r = k.
Proof.
  intros [Hlo Hhi].
  pose proof (Int_part_bounds r) as [Hfl Hce].
  assert (Hn1 : (Int_part r <= k)%Z).
  { assert (H : IZR (Int_part r) < IZR (k + 1)) by (rewrite plus_IZR; lra).
    apply lt_IZR in H. lia. }
  assert (Hn2 : (k - 1 <= Int_part r)%Z).
  { assert (H : IZR (k - 2) < IZR (Int_part r)) by (rewrite minus_IZR; lra).
    apply lt_IZR in H. lia. }
  assert (Hk : Int_part r = k \/ Int_part r = (k - 1)%Z) by lia.
  destruct (rint_cases r) as [[-> Hf] | [-> Hf]]; unfold frac_part in Hf;
    destruct Hk as [Hk | Hk]; rewrite Hk in *;
    try rewrite minus_IZR in Hf; try lia; lra.
Qed.

(** X8.  The cosine is rounded to 4 decimals, so [angle_from] does not see
    small angles: two nonzero vectors whose cosine is above 0.99995 are at
    angle exactly 0, and two whose cosine is below -0.99995 are at angle
    exactly pi. *)
Theorem angle_from_resolution (v w : Vector2D.t) :
  Vector2D.magnitude v <> 0 -> Vector2D.magnitude w <> 0 ->
  (0.99995 * (Vector2D.magnitude w * Vector2D.magnitude v) < Vector2D.dot w v ->
   Vector2D.angle_from v w = Ok 0) /\
  (Vector2D.dot w v < - 0.99995 * (Vector2D.magnitude w * Vector2D.magnitude v) ->
   Vector2D.angle_from v w = Ok PI).
Proof.
  intros Hv Hw.
  pose proof (magnitude_nonneg v) as Hpv. pose proof (magnitude_nonneg w) as Hpw.
  pose proof (cosine_bounded v w Hv Hw) as Hc.
  rewrite angle_from_nonzero by assumption.
  unfold Vector2D.abs in *.
  set (p := Vector2D.magnitude w * Vector2D.magnitude v) in *.
  assert (Hp : 0 < p) by (unfold p; nra).
  set (d := Vector2D.dot w v) in *.
  assert (Hd : d / p * p = d) by (field; lra).
  set (c := d / p) in *.
  split; intros Hclose.
  - assert (Hr : rint (c * 10 ^ 4) = 10000%Z).
    { apply rint_near. simpl. nra. }
    unfold round. rewrite Hr.
    replace (10000 / 10 ^ 4) with 1 by (simpl; lra).
    rewrite acos_1. reflexivity.
  - assert (Hr : rint (c * 10 ^ 4) = (-10000)%Z).
    { apply rint_near. simpl. nra. }
    unfold round. rewrite Hr.
    replace (-10000 / 10 ^ 4) with (-1) by (simpl; lra).
    rewrite acos_opp_1. reflexivity.
Qed.

(** The vectors (1, 0) and (999999, 2000), of magnitude 1000001, make an
    angle of about 0.002 radians; [angle_from] gives 0. *)
Lemma angle_from_resolution_witness :
  Vector2D.angle_from (Vector2D.init 1 0) (Vector2D.init 999999 2000) = Ok 0.
Proof.
  assert (H1 : Vector2D.magnitude (Vector2D.init 1 0) = 1)
    by (apply magnitude_init; lra).
  assert (H2 : Vector2D.magnitude (Vector2D.init 999999 2000) = 1000001)
    by (apply magnitude_init; lra).
  apply (angle_from_resolution (Vector2D.init 1 0) (Vector2D.init 999999 2000)).
  - rewrite H1. lra.
  - rewrite H2. lra.
  - rewrite H1, H2. vector_unfold. lra.
Defined.

(** *** Normalisation *)

Lemma magnitude_mul_abs (v : Vector2D.t) (s : R) :
  Vector2D.magnitude (Vector2D.mul v s) = Vector2D.magnitude v * Rabs s.
Proof.
  pose proof (magnitude_nonneg v) as Hv. pose proof (magnitude_sqr v) as Hq.
  pose proof (Rabs_pos s) as Hs.
  assert (Hss : Rabs s * Rabs s = s * s).
  { unfold Rabs. destruct (Rcase_abs s); ring. }
  destruct v as [[vx vy]]. vector_unfold.
  apply magnitude_init; nra.
Qed.

Lemma normalized_mul (v : Vector2D.t) (s : R) :
  s <> 0 ->
  Vector2D.normalized (Vector2D.mul v s)
  = Vector2D.mul (Vector2D.normalized v) (s / Rabs s).
Proof.
  intros Hs. assert (Ha : Rabs s <> 0) by (apply Rabs_no_R0, Hs).
  destruct (Req_dec_T (Vector2D.magnitude v) 0) as [Hz | Hnz].
  - apply magnitude_zero in Hz as Hv. rewrite Hv at 1. rewrite mul_zeros.
    rewrite (normalized_zero v Hz), mul_zeros.
    apply normalized_zero, magnitude_zero. reflexivity.
  - rewrite normalized_nonzero
      by (rewrite magnitude_mul_abs; apply Rmult_integral_contrapositive_currified;
          assumption).
    rewrite (normalized_nonzero v Hnz), magnitude_mul_abs, !mul_mul.
    f_equal. field. split; assumption.
Qed.

(** X9.  [normalized] keeps only the direction: its result has magnitude 0 or
    1, normalising twice changes nothing, a positive factor on the vector
    changes nothing and a negative one gives the opposite. *)
Theorem normalized_direction (v : Vector2D.t) (s : R) :
  (Vector2D.magnitude (Vector2D.normalized v) = 0
   \/ Vector2D.magnitude (Vector2D.normalized v) = 1) /\
  Vector2D.normalized (Vector2D.normalized v) = Vector2D.normalized v /\
  (0 < s -> Vector2D.normalized (Vector2D.mul v s) = Vector2D.normalized v) /\
  (s < 0 ->
   Vector2D.normalized (Vector2D.mul v s) = Vector2D.neg (Vector2D.normalized v)).
Proof.
  assert (H0 : Vector2D.magnitude Vector2D.zeros = 0)
    by (apply magnitude_init; lra).
  repeat apply conj.
  - destruct (Req_dec_T (Vector2D.magnitude v) 0) as [Hz | Hnz].
    + left. rewrite (normalized_zero v Hz). exact H0.
    + right. apply magnitude_normalized, Hnz.
  - destruct (Req_dec_T (Vector2D.magnitude v) 0) as [Hz | Hnz].
    + rewrite (normalized_zero v Hz). apply normalized_zero, H0.
    + pose proof (magnitude_normalized v Hnz) as H1.
      rewrite (normalized_nonzero (Vector2D.normalized v)) by (rewrite H1; lra).
      rewrite H1, Rinv_1. apply mul_1.
  - intros Hs. rewrite normalized_mul by lra.
    rewrite Rabs_pos_eq by lra.
    replace (s / s) with 1 by (field; lra). apply mul_1.
  - intros Hs. rewrite normalized_mul by lra.
    rewrite Rabs_left by lra.
    replace (s / - s) with (-1) by (field; lra).
    destruct (Vector2D.normalized v) as [[nx ny]]. vector_unfold.
    f_equal. f_equal; ring.
Qed.

(** Twice the vector (3, 4) has the direction of (3, 4). *)
Lemma normalized_direction_witness :
  Vector2D.normalized (Vector2D.mul (Vector2D.init 3 4) 2)
  = Vector2D.normalized (Vector2D.init 3 4).
Proof.
  apply (normalized_direction (Vector2D.init 3 4) 2). lra.
Defined.

(** *** Equality *)

(** On real numbers [==] holds exactly between equal vectors, and [!=] is its
    negation. *)
Lemma eq_decides (v w : Vector2D.t) :
  (Vector2D.eq v w = true <-> v = w) /\
  Vector2D.ne v w = negb (Vector2D.eq v w).
Proof.
  split.
  - unfold Vector2D.eq. rewrite andb_true_iff, !float_eq_true.
    split.
    + intros [Hx Hy]. apply vector_ext; assumption.
    + intros ->. split; reflexivity.
  - unfold Vector2D.ne, Vector2D.eq, float_ne. rewrite negb_andb. reflexivity.
Qed.

(** *** The angle of a vector *)

Lemma sqrt_one_plus_sqr (x y m : R) :
  x <> 0 -> 0 <= m -> m * m = x * x + y * y ->
  sqrt (1 + (y / x)²) = m / Rabs x.
Proof.
  intros Hx Hm Hsq.
  assert (Ha : 0 < Rabs x) by (apply Rabs_pos_lt, Hx).
  assert (Hxx : Rabs x * Rabs x = x * x).
  { unfold Rabs. destruct (Rcase_abs x); ring. }
  apply sqrt_lem_1.
  - unfold Rsqr. assert (0 <= y / x * (y / x)) by nra. lra.
  - apply Rmult_le_pos; [exact Hm |]. left. apply Rinv_0_lt_compat, Ha.
  - unfold Rsqr.
    replace (m / Rabs x * (m / Rabs x)) with (m * m / (Rabs x * Rabs x))
      by (field; lra).
    rewrite Hsq, Hxx. field. exact Hx.
Qed.

Lemma atan_pos (t : R) : 0 < t -> 0 < atan t.
Proof. intros H. rewrite <- atan_0. apply atan_increasing, H. Qed.

Lemma atan_neg (t : R) : t < 0 -> atan t < 0.
Proof. intros H. rewrite <- atan_0. apply atan_increasing, H. Qed.

Lemma atan2_range (y x : R) : - PI < math_atan2 y x <= PI.
Proof.
  pose proof PI_RGT_0 as Hpi. unfold math_atan2.
  destruct (float_gt x 0) eqn:Hx.
  { pose proof (atan_bound (y / x)). lra. }
  destruct (float_gt 0 x) eqn:Hx'.
  - apply float_gt_true in Hx'.
    destruct (float_gt 0 y) eqn:Hy.
    + apply float_gt_true in Hy.
      assert (0 < y / x).
      { replace (y / x) with ((- y) * / (- x)) by (field; lra).
        apply Rmult_lt_0_compat; [lra |]. apply Rinv_0_lt_compat. lra. }
      pose proof (atan_pos (y / x)). pose proof (atan_bound (y / x)). lra.
    + apply float_gt_false in Hy.
      pose proof (atan_bound (y / x)) as Hb.
      destruct (Req_dec_T y 0) as [-> | Hy0].
      * unfold Rdiv in *. rewrite Rmult_0_l in *. rewrite atan_0. lra.
      * assert (y / x < 0).
        { replace (y / x) with (- (y * / (- x))) by (field; lra).
          assert (0 < y * / (- x)); [| lra].
          apply Rmult_lt_0_compat; [lra |]. apply Rinv_0_lt_compat. lra. }
        pose proof (atan_neg (y / x)). lra.
  - destruct (float_gt y 0); [lra |]. destruct (float_gt 0 y); lra.
Qed.

Lemma atan2_polar (y x m : R) :
  0 <= m -> m * m = x * x + y * y ->
  x = m * cos (math_atan2 y x) /\ y = m * sin (math_atan2 y x).
Proof.
  intros Hm Hsq. unfold math_atan2.
  destruct (float_gt x 0) eqn:Hx.
  { apply float_gt_true in Hx.
    rewrite cos_atan, sin_atan, (sqrt_one_plus_sqr x y m) by lra.
    rewrite Rabs_pos_eq by lra.
    assert (m <> 0) by nra.
    split; field; split; lra. }
  destruct (float_gt 0 x) eqn:Hx'.
  - apply float_gt_true in Hx'.
    assert (Hmnz : m <> 0) by nra.
    assert (Hc : cos (atan (y / x)) = - x / m /\ sin (atan (y / x)) = - y / m).
    { rewrite cos_atan, sin_atan, (sqrt_one_plus_sqr x y m) by lra.
      rewrite Rabs_left by lra. split; field; split; lra. }
    destruct Hc as [Hc Hs].
    destruct (float_gt 0 y).
    + rewrite cos_minus, sin_minus, cos_PI, sin_PI, Hc, Hs. split; field; exact Hmnz.
    + rewrite cos_plus, sin_plus, cos_PI, sin_PI, Hc, Hs. split; field; exact Hmnz.
  - apply float_gt_false in Hx, Hx'. assert (x = 0) by lra. subst x.
    destruct (float_gt y 0) eqn:Hy.
    + apply float_gt_true in Hy. rewrite cos_PI2, sin_PI2. split; nra.
    + destruct (float_gt 0 y) eqn:Hy'.
      * apply float_gt_true in Hy'. rewrite cos_neg, sin_neg, cos_PI2, sin_PI2.
        split; nra.
      * apply float_gt_false in Hy, Hy'. assert (y = 0) by lra. subst y.
        assert (m = 0) by nra. subst m. split; ring.
Qed.

(** X10.  [angle] is the polar angle of the vector: it lies in (-pi, pi], and
    the vector is its magnitude times (cos angle, sin angle), so that it is
    the vector (magnitude, 0) rotated by [angle]. *)
Theorem angle_polar (v : Vector2D.t) :
  - PI < Vector2D.angle v <= PI /\
  Vector2D.x v = Vector2D.magnitude v * cos (Vector2D.angle v) /\
  Vector2D.y v = Vector2D.magnitude v * sin (Vector2D.angle v) /\
  Vector2D.rotated (Vector2D.init (Vector2D.magnitude v) 0) (Vector2D.angle v) = v.
Proof.
  pose proof (magnitude_nonneg v) as Hm. pose proof (magnitude_sqr v) as Hq.
  unfold Vector2D.angle.
  destruct v as [[vx vy]].
  set (m := Vector2D.magnitude _) in *.
  assert (Hp : vx = m * cos (math_atan2 vy vx) /\ vy = m * sin (math_atan2 vy vx)).
  { apply atan2_polar; [exact Hm |]. rewrite Hq. vector_unfold. reflexivity. }
  clearbody m. destruct Hp as [Hx Hy].
  split; [| split; [| split]].
  - apply atan2_range.
  - exact Hx.
  - exact Hy.
  - vector_unfold. f_equal. f_equal; lra.
Qed.

End VectorLaws.

(** ** Kinematics, on real numbers *)

Module KinematicsLaws.

Import Ideal IdealFacts VectorLaws.
Local Open Scope R_scope.

Create Rewrite HintDb frames.

#[local] Hint Rewrite position_add orientation_add velocity_add rotation_add
  position_sub orientation_sub velocity_sub rotation_sub : frames.

Lemma sub_zeros_l (v : Vector2D.t) :
  Vector2D.sub Vector2D.zeros v = Vector2D.neg v.
Proof. destruct v as [[vx vy]]. vector_unfold. f_equal. f_equal; ring. Qed.

Lemma sub_zeros_r (v : Vector2D.t) : Vector2D.sub v Vector2D.zeros = v.
Proof. destruct v as [[vx vy]]. vector_unfold. f_equal. f_equal; ring. Qed.

Lemma sub_diag (v : Vector2D.t) : Vector2D.sub v v = Vector2D.zeros.
Proof. destruct v as [[vx vy]]. vector_unfold. f_equal. f_equal; ring. Qed.

Lemma add_neg_l (v w : Vector2D.t) :
  Vector2D.add (Vector2D.neg v) w = Vector2D.sub w v.
Proof. destruct v as [[vx vy]], w as [[wx wy]]. vector_unfold. f_equal. f_equal; ring. Qed.

Lemma add_neg_r (v : Vector2D.t) :
  Vector2D.add v (Vector2D.neg v) = Vector2D.zeros.
Proof. destruct v as [[vx vy]]. vector_unfold. f_equal. f_equal; ring. Qed.

Lemma rotated_neg (v : Vector2D.t) (angle : R) :
  Vector2D.rotated (Vector2D.neg v) angle = Vector2D.neg (Vector2D.rotated v angle).
Proof. destruct v as [[vx vy]]. vector_unfold. f_equal. f_equal; ring. Qed.

Lemma sub_add_add (u v w : Vector2D.t) :
  Vector2D.sub (Vector2D.add u v) (Vector2D.add u w) = Vector2D.sub v w.
Proof.
  destruct u as [[ux uy]], v as [[vx vy]], w as [[wx wy]]. vector_unfold.
  f_equal. f_equal; ring.
Qed.

(** X11.  The composition of frames is associative:
    [(a + b) + c] is [a + (b + c)]. *)
Theorem add_associative (a b c : Kinematics.t) :
  Kinematics.add (Kinematics.add a b) c = Kinematics.add a (Kinematics.add b c).
Proof.
  apply kinematics_ext; autorewrite with frames;
    rewrite ?rotated_add, ?rotated_add_angle, ?add_assoc;
    rewrite ?(Rplus_comm (Kinematics.orientation b) (Kinematics.orientation a));
    try reflexivity; ring.
Qed.

(** X12.  [zeros - a] is the inverse of [a] for the composition, on both
    sides, and the decomposition is the composition with it:
    [b - a] is [(zeros - a) + b].  In particular [a - a] is [zeros] and
    [a - zeros] is [a]. *)
Theorem sub_inverse (a b : Kinematics.t) :
  Kinematics.add a (Kinematics.sub Kinematics.zeros a) = Kinematics.zeros /\
  Kinematics.add (Kinematics.sub Kinematics.zeros a) a = Kinematics.zeros /\
  Kinematics.sub b a = Kinematics.add (Kinematics.sub Kinematics.zeros a) b /\
  Kinematics.sub a a = Kinematics.zeros /\
  Kinematics.sub a Kinematics.zeros = a.
Proof.
  destruct fields_zeros as (Hp & Ho & Hv & Hr).
  repeat apply conj; apply kinematics_ext; autorewrite with frames;
    rewrite ?Hp, ?Ho, ?Hv, ?Hr, ?sub_zeros_l, ?sub_zeros_r, ?sub_diag,
            ?Ropp_0, ?rotated_0, ?rotated_zeros, ?rotated_neg;
    rewrite ?Rminus_0_l, ?rotated_rotated_neg, ?add_neg_r, ?add_neg_l,
            ?rotated_sub;
    try reflexivity; try ring; apply sub_diag.
Qed.

Lemma rotated_sub_frame (u v w : Vector2D.t) (a b : R) :
  Vector2D.rotated
    (Vector2D.sub (Vector2D.add u (Vector2D.rotated v a))
                  (Vector2D.add u (Vector2D.rotated w a)))
    (- (a + b))
  = Vector2D.rotated (Vector2D.sub v w) (- b).
Proof.
  rewrite sub_add_add, <- rotated_sub.
  replace (- (a + b)) with (- a + - b) by ring.
  rewrite <- rotated_add_angle, rotated_neg_rotated. reflexivity.
Qed.

(** X13.  What one frame sees of another does not depend on the frame in
    which both are given: [(c + a) - (c + b)] is [a - b]. *)
Theorem sub_common_frame (a b c : Kinematics.t) :
  Kinematics.sub (Kinematics.add c a) (Kinematics.add c b) = Kinematics.sub a b.
Proof.
  apply kinematics_ext; autorewrite with frames;
    rewrite ?rotated_sub_frame; try reflexivity; ring.
Qed.

(** *** The motion update *)

Lemma position_updated (k : Kinematics.t) (dt : R) :
  Kinematics.position (Kinematics.updated k dt)
  = Vector2D.add (Kinematics.position k)
      (Vector2D.rotated (Vector2D.mul (Kinematics.velocity k) dt)
                        (Kinematics.rotation k * dt)).
Proof. apply from_copy_id. Qed.

Lemma orientation_updated (k : Kinematics.t) (dt : R) :
  Kinematics.orientation (Kinematics.updated k dt)
  = Kinematics.orientation k + Kinematics.rotation k * dt.
Proof. reflexivity. Qed.

Lemma velocity_updated (k : Kinematics.t) (dt : R) :
  Kinematics.velocity (Kinematics.updated k dt) = Kinematics.velocity k.
Proof. apply from_copy_id. Qed.

Lemma rotation_updated (k : Kinematics.t) (dt : R) :
  Kinematics.rotation (Kinematics.updated k dt) = Kinematics.rotation k.
Proof. reflexivity. Qed.

#[local] Hint Rewrite position_updated orientation_updated velocity_updated
  rotation_updated : frames.

Lemma mul_0 (v : Vector2D.t) : Vector2D.mul v 0 = Vector2D.zeros.
Proof. destruct v as [[vx vy]]. vector_unfold. f_equal. f_equal; ring. Qed.

Lemma mul_plus (v : Vector2D.t) (s t : R) :
  Vector2D.add (Vector2D.mul v s) (Vector2D.mul v t) = Vector2D.mul v (s + t).
Proof. destruct v as [[vx vy]]. vector_unfold. f_equal. f_equal; ring. Qed.

(** X14.  An update by no time changes nothing.  Two updates in a row add
    their orientation changes, and for a body that does not rotate they are
    the update by the sum of the two times.  The distance between the
    positions before and after an update is the speed times the length of
    the time step, whatever the rotation. *)
Theorem updated_steps (k : Kinematics.t) (s t : R) :
  Kinematics.updated k 0 = k /\
  Kinematics.orientation (Kinematics.updated (Kinematics.updated k s) t)
  = Kinematics.orientation (Kinematics.updated k (s + t)) /\
  (Kinematics.rotation k = 0 ->
   Kinematics.updated (Kinematics.updated k s) t = Kinematics.updated k (s + t)) /\
  Vector2D.magnitude
    (Vector2D.sub (Kinematics.position (Kinematics.updated k t))
                  (Kinematics.position k))
  = Vector2D.magnitude (Kinematics.velocity k) * Rabs t.
Proof.
  split; [| split; [| split]].
  - apply kinematics_ext; autorewrite with frames;
      rewrite ?Rmult_0_r, ?mul_0, ?rotated_zeros, ?add_zeros_r;
      try reflexivity; ring.
  - autorewrite with frames. ring.
  - intros Hr.
    apply kinematics_ext; autorewrite with frames;
      rewrite ?Hr, ?Rmult_0_l, ?rotated_0, ?add_assoc, ?mul_plus;
      try reflexivity; ring.
  - autorewrite with frames.
    rewrite add_sub_cancel, magnitude_rotated.
    apply magnitude_mul_abs.
Qed.

(** A body moving straight, updated twice. *)
Lemma updated_steps_witness :
  Kinematics.updated
    (Kinematics.updated
       (Kinematics.init (Vector2D.init 1 2) 3 (Vector2D.init 4 5) 0) 1) 2
  = Kinematics.updated
      (Kinematics.init (Vector2D.init 1 2) 3 (Vector2D.init 4 5) 0) (1 + 2).
Proof.
  apply (updated_steps
           (Kinematics.init (Vector2D.init 1 2) 3 (Vector2D.init 4 5) 0) 1 2).
  reflexivity.
Defined.

(** X15.  The update commutes with the composition by a frame at rest: for a
    frame [a] of velocity zero and rotation zero, updating [a + b] is
    composing [a] with the update of [b]. *)
Theorem updated_in_static_frame (a b : Kinematics.t) (dt : R) :
  Kinematics.velocity a = Vector2D.zeros ->
  Kinematics.rotation a = 0 ->
  Kinematics.updated (Kinematics.add a b) dt
  = Kinematics.add a (Kinematics.updated b dt).
Proof.
  intros Hv Hr.
  apply kinematics_ext; autorewrite with frames;
    rewrite ?Hv, ?Hr, ?Rplus_0_l, ?add_zeros_l, ?rotated_add, ?rotated_mul,
            ?rotated_add_angle, ?add_assoc;
    rewrite ?(Rplus_comm (Kinematics.rotation b * dt) (Kinematics.orientation a));
    try reflexivity; ring.
Qed.

(** A frame at rest at (1, 2) turned by 3, and a moving body. *)
Lemma updated_in_static_frame_witness :
  Kinematics.updated
    (Kinematics.add (Kinematics.init (Vector2D.init 1 2) 3 Vector2D.zeros 0)
                    (Kinematics.init (Vector2D.init 4 5) 6 (Vector2D.init 7 8) 9))
    2
  = Kinematics.add (Kinematics.init (Vector2D.init 1 2) 3 Vector2D.zeros 0)
      (Kinematics.updated
         (Kinematics.init (Vector2D.init 4 5) 6 (Vector2D.init 7 8) 9) 2).
Proof.
  apply (updated_in_static_frame
           (Kinematics.init (Vector2D.init 1 2) 3 Vector2D.zeros 0)
           (Kinematics.init (Vector2D.init 4 5) 6 (Vector2D.init 7 8) 9) 2);
    reflexivity.
Defined.

(** *** Stopping *)

Lemma delta_position_to_stop_velocity (k : Kinematics.t) (d : R) :
  d <> 0 ->
  Kinematics.delta_position_to_stop k d
  = Vector2D.mul (Kinematics.velocity k)
      (Vector2D.magnitude (Kinematics.velocity k) / (2 * d)).
Proof.
  intros Hd. rewrite delta_position_to_stop_mul.
  set (v := Kinematics.velocity k).
  destruct (Req_dec_T (Vector2D.magnitude v) 0) as [Hz | Hnz].
  - rewrite (normalized_zero v Hz), mul_zeros, Hz.
    unfold Rdiv. rewrite Rmult_0_l, mul_0. reflexivity.
  - rewrite (normalized_nonzero v Hnz), mul_mul. f_equal. field. lra.
Qed.

(** X16.  For a deceleration [d] other than zero, the displacement to stop is
    the velocity times [|velocity| / (2 d)], half the time [|velocity| / d]
    it takes to stop.  A negative deceleration gives the opposite of the
    displacement for its absolute value, and a body at rest needs no
    displacement. *)
Theorem delta_position_to_stop_signed (k : Kinematics.t) (d : R) :
  d <> 0 ->
  Kinematics.delta_position_to_stop k d
  = Vector2D.mul (Kinematics.velocity k)
      (Vector2D.magnitude (Kinematics.velocity k) / d / 2) /\
  Kinematics.delta_position_to_stop k (- d)
  = Vector2D.neg (Kinematics.delta_position_to_stop k d) /\
  (Kinematics.velocity k = Vector2D.zeros ->
   Kinematics.delta_position_to_stop k d = Vector2D.zeros).
Proof.
  intros Hd.
  rewrite !delta_position_to_stop_velocity by lra.
  repeat apply conj.
  - f_equal. field. exact Hd.
  - set (m := Vector2D.magnitude (Kinematics.velocity k)).
    replace (m / (2 * - d)) with (- (m / (2 * d))) by (field; exact Hd).
    destruct (Kinematics.velocity k) as [[vx vy]]. vector_unfold.
    f_equal. f_equal; ring.
  - intros ->. apply (mul_zeros _).
Qed.

(** The velocity (3, 4) with the deceleration -1. *)
Lemma delta_position_to_stop_signed_witness :
  Kinematics.delta_position_to_stop
    (Kinematics.init Vector2D.zeros 0 (Vector2D.init 3 4) 0) (- (-1))
  = Vector2D.neg
      (Kinematics.delta_position_to_stop
         (Kinematics.init Vector2D.zeros 0 (Vector2D.init 3 4) 0) (-1)).
Proof.
  apply (delta_position_to_stop_signed
           (Kinematics.init Vector2D.zeros 0 (Vector2D.init 3 4) 0) (-1)).
  lra.
Defined.

End KinematicsLaws.

(** ** Vectors and kinematics, on binary64 *)

Module Binary64Laws.

Import Floats.
Import Binary64 Binary64Facts.
Local Open Scope float_scope.

(** *** Equality *)

(** X18.  On binary64, [==] returns [True] exactly when each component of one
    vector is the same float as that of the other and is not NaN, or both are
    zeros of either sign; [!=] returns the negation, and neither raises.  A
    vector with a NaN component is not equal to itself. *)
Theorem eq_exact (v w : Vector2D.t) :
  (Vector2D.eq v w = Ok true <->
   ((Vector2D.x v = Vector2D.x w /\ Vector2D.x v <> nan)
    \/ ((Vector2D.x v = 0 \/ Vector2D.x v = -0)
        /\ (Vector2D.x w = 0 \/ Vector2D.x w = -0))) /\
   ((Vector2D.y v = Vector2D.y w /\ Vector2D.y v <> nan)
    \/ ((Vector2D.y v = 0 \/ Vector2D.y v = -0)
        /\ (Vector2D.y w = 0 \/ Vector2D.y w = -0)))) /\
  (exists b : bool, Vector2D.eq v w = Ok b /\ Vector2D.ne v w = Ok (negb b)) /\
  (Vector2D.x v = nan \/ Vector2D.y v = nan -> Vector2D.eq v v = Ok false).
Proof.
  unfold Vector2D.eq, Vector2D.ne, Vector2D.x, Vector2D.y.
  destruct v as [[vx vy]], w as [[wx wy]]. simpl.
  split; [| split].
  - rewrite <- !eqb_true. split.
    + intros H. injection H as H. apply andb_true_iff in H. exact H.
    + intros [-> ->]. reflexivity.
  - eexists. split; [reflexivity |]. rewrite negb_andb. reflexivity.
  - intros [-> | ->]; [reflexivity |].
    rewrite andb_comm. reflexivity.
Qed.

(** The vector (0, 1) equals (-0, 1), and (NaN, 1) does not equal itself. *)
Lemma eq_exact_witness :
  Vector2D.eq (Vector2D.init 0 1) (Vector2D.init (-0) 1) = Ok true /\
  Vector2D.eq (Vector2D.init nan 1) (Vector2D.init nan 1) = Ok false.
Proof.
  split.
  - apply (eq_exact (Vector2D.init 0 1) (Vector2D.init (-0) 1)).
    split; [right | left]; simpl; auto.
    split; [reflexivity |]. intros H. apply (f_equal classify) in H. discriminate H.
  - apply (eq_exact (Vector2D.init nan 1) (Vector2D.init nan 1)).
    left. reflexivity.
Defined.

(** *** Stopping *)

(** X17.  On binary64, negating the deceleration negates what
    [delta_orientation_to_stop] returns and changes no exception:
    [delta_orientation_to_stop(-d)] raises what
    [delta_orientation_to_stop(d)] raises, and otherwise returns the opposite
    float. *)
Theorem delta_orientation_to_stop_negated (k : Kinematics.t) (d : float) :
  Kinematics.delta_orientation_to_stop k (- d)
  = match Kinematics.delta_orientation_to_stop k d with
    | Ok value => Ok (- value)
    | Raise e => Raise e
    end.
Proof.
  unfold Kinematics.delta_orientation_to_stop.
  destruct (float_pow2 (abs (Kinematics.rotation k))) as [sq | e]; [| reflexivity].
  unfold bind, float_truediv.
  rewrite mul_opp_r, eqb_opp_zero, div_opp_r.
  destruct (2 * d =? 0); [reflexivity |].
  destruct (0 <? Kinematics.rotation k); reflexivity.
Qed.

(** X19.  On binary64, for a deceleration [d > 0],
    [delta_orientation_to_stop] raises [OverflowError] exactly when the
    rotation is finite and its square overflows, and otherwise returns a
    float; it raises nothing else.  For a deceleration that is a zero, of
    either sign, it never returns: it raises [OverflowError] exactly in the
    same case and [ZeroDivisionError] exactly in every other case. *)
Theorem delta_orientation_to_stop_raises (k : Kinematics.t) (d : float) :
  ((0 <? d) = true ->
   (Kinematics.delta_orientation_to_stop k d = Raise OverflowError <->
    is_nan (abs (Kinematics.rotation k)) = false /\
    is_infinity (abs (Kinematics.rotation k)) = false /\
    is_infinity (abs (Kinematics.rotation k) * abs (Kinematics.rotation k)) = true) /\
   ((exists value, Kinematics.delta_orientation_to_stop k d = Ok value) \/
    Kinematics.delta_orientation_to_stop k d = Raise OverflowError)) /\
  ((d =? 0) = true ->
   (Kinematics.delta_orientation_to_stop k d = Raise OverflowError <->
    is_nan (abs (Kinematics.rotation k)) = false /\
    is_infinity (abs (Kinematics.rotation k)) = false /\
    is_infinity (abs (Kinematics.rotation k) * abs (Kinematics.rotation k)) = true) /\
   (Kinematics.delta_orientation_to_stop k d = Raise ZeroDivisionError <->
    ~ (is_nan (abs (Kinematics.rotation k)) = false /\
       is_infinity (abs (Kinematics.rotation k)) = false /\
       is_infinity (abs (Kinematics.rotation k) * abs (Kinematics.rotation k)) = true))).
Proof.
  unfold Kinematics.delta_orientation_to_stop.
  set (a := abs (Kinematics.rotation k)).
  split.
  - intros Hd. rewrite <- float_pow2_overflow.
    destruct (float_pow2_cases a) as [[square Hs] | Hs]; rewrite Hs; unfold bind.
    + rewrite float_truediv_pos by exact Hd.
      split; [split; discriminate | left; eauto].
    + split; [split; reflexivity | right; reflexivity].
  - intros Hd. rewrite <- float_pow2_overflow.
    destruct (float_pow2_cases a) as [[square Hs] | Hs]; rewrite Hs; unfold bind.
    + rewrite float_truediv_zero by exact Hd. split.
      * split; discriminate.
      * split; [intros _ H; discriminate H | intros _; reflexivity].
    + split.
      * split; intros _; reflexivity.
      * split; [discriminate | intros H; exfalso; apply H; reflexivity].
Qed.

(** With the deceleration 1, the rotation 2^600, whose square is above the
    largest float, raises [OverflowError].  With the deceleration 0, the
    rotation 2^600 raises [OverflowError] and the rotation 1 raises
    [ZeroDivisionError]. *)
Lemma delta_orientation_to_stop_raises_witness :
  Kinematics.delta_orientation_to_stop
    (Kinematics.init (Vector2D.init 0 0) 0 (Vector2D.init 0 0) 0x1p+600) 1
  = Raise OverflowError /\
  Kinematics.delta_orientation_to_stop
    (Kinematics.init (Vector2D.init 0 0) 0 (Vector2D.init 0 0) 0x1p+600) 0
  = Raise OverflowError /\
  Kinematics.delta_orientation_to_stop
    (Kinematics.init (Vector2D.init 0 0) 0 (Vector2D.init 0 0) 1) 0
  = Raise ZeroDivisionError.
Proof.
  repeat apply conj.
  - apply (proj1 (proj1 (delta_orientation_to_stop_raises
                           (Kinematics.init (Vector2D.init 0 0) 0
                                            (Vector2D.init 0 0) 0x1p+600) 1)
                        eq_refl)).
    repeat split.
  - apply (proj1 (proj2 (delta_orientation_to_stop_raises
                           (Kinematics.init (Vector2D.init 0 0) 0
                                            (Vector2D.init 0 0) 0x1p+600) 0)
                        eq_refl)).
    repeat split.
  - apply (proj2 (proj2 (delta_orientation_to_stop_raises
                           (Kinematics.init (Vector2D.init 0 0) 0
                                            (Vector2D.init 0 0) 1) 0)
                        eq_refl)).
    intros (_ & _ & H). discriminate H.
Defined.

End Binary64Laws.

(** ** Objects and references *)

Module HeapFacts.

Import ListNotations.
Import Heap.
Local Open Scope heap_scope.

(** *** Lists as stores *)

Lemma nth_error_app_Some {A : Type} (l l' : list A) (n : nat) (a : A) :
  nth_error l n = Some a -> nth_error (l ++ l') n = Some a.
Proof.
  intros H. rewrite nth_error_app1; [exact H |].
  apply nth_error_Some. congruence.
Qed.

Lemma nth_error_length {A : Type} (l l' : list A) (a : A) :
  nth_error (l ++ a :: l') (length l) = Some a.
Proof.
  rewrite nth_error_app2 by lia. rewrite Nat.sub_diag. reflexivity.
Qed.

Lemma nth_error_fresh {A : Type} (l : list A) (n : nat) (a : A) :
  nth_error l n = Some a -> n <> length l.
Proof.
  intros H Hn. subst n.
  assert (Hlt : length l < length l) by (apply nth_error_Some; congruence). lia.
Qed.

Lemma update_Some {A : Type} (l : list A) (n : nat) (a b : A) :
  nth_error l n = Some b -> exists l', update l n a = Some l'.
Proof.
  revert n. induction l as [| c l IH]; intros [| n] H; simpl in *;
    try discriminate; eauto.
  destruct (IH n H) as [l' ->]. simpl. eauto.
Qed.

Lemma update_same {A : Type} (l l' : list A) (n : nat) (a : A) :
  update l n a = Some l' -> nth_error l' n = Some a.
Proof.
  revert n l'. induction l as [| c l IH]; intros [| n] l' H; simpl in *;
    try discriminate.
  - injection H as <-. reflexivity.
  - destruct (update l n a) as [l1 |] eqn:Hu; [| discriminate].
    injection H as <-. simpl. eapply IH. exact Hu.
Qed.

Lemma update_other {A : Type} (l l' : list A) (n m : nat) (a : A) :
  update l n a = Some l' -> m <> n -> nth_error l' m = nth_error l m.
Proof.
  revert n m l'. induction l as [| c l IH]; intros [| n] [| m] l' H Hm;
    simpl in *; try discriminate; try congruence.
  - injection H as <-. reflexivity.
  - destruct (update l n a) as [l1 |]; [| discriminate]. injection H as <-.
    reflexivity.
  - destruct (update l n a) as [l1 |] eqn:Hu; [| discriminate].
    injection H as <-. simpl. eapply IH; [exact Hu | lia].
Qed.

(** *** Running the methods

    Each lemma runs one method in front of a continuation [f]. *)

Section Run.

Context {B : Type}.
Variable f_ref : ref -> M B.
Variable f_num : R -> M B.
Variable h : heap.

Lemma run_position (self : ref) (k : kinematics) :
  nth_error (objects h) self = Some k ->
  (x <- Kinematics.position self ;; f_ref x) h = f_ref (_position k) h.
Proof.
  intros H. unfold Kinematics.position, read_object, and_then, ret.
  rewrite H. reflexivity.
Qed.

Lemma run_velocity (self : ref) (k : kinematics) :
  nth_error (objects h) self = Some k ->
  (x <- Kinematics.velocity self ;; f_ref x) h = f_ref (_velocity k) h.
Proof.
  intros H. unfold Kinematics.velocity, read_object, and_then, ret.
  rewrite H. reflexivity.
Qed.

Lemma run_orientation (self : ref) (k : kinematics) :
  nth_error (objects h) self = Some k ->
  (x <- Kinematics.orientation self ;; f_num x) h = f_num (_orientation k) h.
Proof.
  intros H. unfold Kinematics.orientation, read_object, and_then, ret.
  rewrite H. reflexivity.
Qed.

Lemma run_rotation (self : ref) (k : kinematics) :
  nth_error (objects h) self = Some k ->
  (x <- Kinematics.rotation self ;; f_num x) h = f_num (_rotation k) h.
Proof.
  intros H. unfold Kinematics.rotation, read_object, and_then, ret.
  rewrite H. reflexivity.
Qed.

Lemma run_from_copy (source : ref) (a : Ideal.ndarray) :
  nth_error (arrays h) source = Some a ->
  (x <- Vector2D.from_copy source ;; f_ref x) h
  = f_ref (length (arrays h))
      (grown h (Ideal.Vector2D._array (Ideal.Vector2D.from_copy (Ideal.Vector2D.mk a)))).
Proof.
  intros H. unfold Vector2D.from_copy, read_array, and_then.
  rewrite H. reflexivity.
Qed.

Lemma run_add (self other : ref) (a b : Ideal.ndarray) :
  nth_error (arrays h) self = Some a ->
  nth_error (arrays h) other = Some b ->
  (x <- Vector2D.add self other ;; f_ref x) h
  = f_ref (length (arrays h))
      (grown h (Ideal.Vector2D._array
                (Ideal.Vector2D.add (Ideal.Vector2D.mk a) (Ideal.Vector2D.mk b)))).
Proof.
  intros Ha Hb. unfold Vector2D.add, read_array, and_then.
  rewrite Ha. simpl. rewrite Hb. reflexivity.
Qed.

Lemma run_sub (self other : ref) (a b : Ideal.ndarray) :
  nth_error (arrays h) self = Some a ->
  nth_error (arrays h) other = Some b ->
  (x <- Vector2D.sub self other ;; f_ref x) h
  = f_ref (length (arrays h))
      (grown h (Ideal.Vector2D._array
                (Ideal.Vector2D.sub (Ideal.Vector2D.mk a) (Ideal.Vector2D.mk b)))).
Proof.
  intros Ha Hb. unfold Vector2D.sub, read_array, and_then.
  rewrite Ha. simpl. rewrite Hb. reflexivity.
Qed.

Lemma run_mul (self : ref) (s : R) (a : Ideal.ndarray) :
  nth_error (arrays h) self = Some a ->
  (x <- Vector2D.mul self s ;; f_ref x) h
  = f_ref (length (arrays h))
      (grown h (Ideal.Vector2D._array (Ideal.Vector2D.mul (Ideal.Vector2D.mk a) s))).
Proof.
  intros Ha. unfold Vector2D.mul, read_array, and_then.
  rewrite Ha. reflexivity.
Qed.

Lemma run_rotated (self : ref) (angle : R) (a : Ideal.ndarray) :
  nth_error (arrays h) self = Some a ->
  (x <- Vector2D.rotated self angle ;; f_ref x) h
  = f_ref (length (arrays h))
      (grown h (Ideal.Vector2D._array
                (Ideal.Vector2D.rotated (Ideal.Vector2D.mk a) angle))).
Proof.
  intros Ha. unfold Vector2D.rotated, read_array, and_then.
  rewrite Ha. reflexivity.
Qed.

End Run.

(** The constructor copies its two vectors into two new arrays and creates
    one object that refers to them. *)
Lemma run_init (h : heap) (position velocity : ref) (o r : R)
               (p v : Ideal.ndarray) :
  nth_error (arrays h) position = Some p ->
  nth_error (arrays h) velocity = Some v ->
  Kinematics.init position o velocity r h
  = Some (length (objects h),
          mk_heap ((arrays h ++ [(fst p, snd p)]) ++ [(fst v, snd v)])
                  (objects h ++ [{| _position := length (arrays h);
                                    _orientation := o;
                                    _velocity := length (arrays h ++ [(fst p, snd p)]);
                                    _rotation := r |}])).
Proof.
  intros Hp Hv. unfold Kinematics.init.
  rewrite (run_from_copy _ h position p Hp).
  erewrite run_from_copy by (apply nth_error_app_Some, Hv).
  reflexivity.
Qed.

(** *** What a reference stands for *)

Lemma vector_at_inv (h : heap) (r : ref) (v : Ideal.Vector2D.t) :
  vector_at h r = Some v ->
  nth_error (arrays h) r = Some (Ideal.Vector2D._array v).
Proof.
  unfold vector_at. destruct (nth_error (arrays h) r) as [a |]; [| discriminate].
  intros H. injection H as <-. reflexivity.
Qed.

Lemma vector_at_intro (h : heap) (r : ref) (a : Ideal.ndarray) :
  nth_error (arrays h) r = Some a ->
  vector_at h r = Some (Ideal.Vector2D.mk a).
Proof. unfold vector_at. intros ->. reflexivity. Qed.

Lemma kinematics_at_inv (h : heap) (r : ref) (kv : Ideal.Kinematics.t) :
  kinematics_at h r = Some kv ->
  exists obj : kinematics,
    nth_error (objects h) r = Some obj /\
    nth_error (arrays h) (_position obj)
    = Some (Ideal.Vector2D._array (Ideal.Kinematics.position kv)) /\
    nth_error (arrays h) (_velocity obj)
    = Some (Ideal.Vector2D._array (Ideal.Kinematics.velocity kv)) /\
    _orientation obj = Ideal.Kinematics.orientation kv /\
    _rotation obj = Ideal.Kinematics.rotation kv.
Proof.
  unfold kinematics_at, vector_at.
  destruct (nth_error (objects h) r) as [obj |]; [| discriminate].
  destruct (nth_error (arrays h) (_position obj)) as [p |] eqn:Hp; [| discriminate].
  destruct (nth_error (arrays h) (_velocity obj)) as [v |] eqn:Hv; [| discriminate].
  simpl. intros H. injection H as <-. exists obj. repeat split; assumption.
Qed.

Lemma kinematics_at_intro (h : heap) (r : ref) (obj : kinematics)
                          (p v : Ideal.ndarray) :
  nth_error (objects h) r = Some obj ->
  nth_error (arrays h) (_position obj) = Some p ->
  nth_error (arrays h) (_velocity obj) = Some v ->
  kinematics_at h r
  = Some (Ideal.Kinematics.mk (Ideal.Vector2D.mk p) (_orientation obj)
                              (Ideal.Vector2D.mk v) (_rotation obj)).
Proof.
  intros Ho Hp Hv. unfold kinematics_at, vector_at. rewrite Ho, Hp, Hv.
  reflexivity.
Qed.

(** Reads of a heap that has grown. *)
Ltac solve_read :=
  simpl;
  repeat first [ eassumption
               | apply nth_error_length
               | apply nth_error_app_Some ].

(** A write to an array changes no kinematics whose vectors are other
    arrays. *)
Lemma write_array_kinematics_at (h h' : heap) (r k : ref) (a : Ideal.ndarray)
                                (obj : kinematics) :
  write_array r a h = Some (tt, h') ->
  nth_error (objects h) k = Some obj ->
  _position obj <> r -> _velocity obj <> r ->
  kinematics_at h' k = kinematics_at h k.
Proof.
  unfold write_array. intros Hw Ho Hp Hv.
  destruct (update (arrays h) r a) as [l |] eqn:Hu; [| discriminate].
  injection Hw as <-.
  unfold kinematics_at, vector_at. simpl. rewrite Ho.
  rewrite (update_other _ _ _ _ _ Hu Hp), (update_other _ _ _ _ _ Hu Hv).
  reflexivity.
Qed.

Lemma set_x_write (h h' : heap) (r : ref) (c : R) :
  Vector2D.set_x r c h = Some (tt, h') ->
  exists a, write_array r a h = Some (tt, h').
Proof.
  unfold Vector2D.set_x, and_then, read_array.
  destruct (nth_error (arrays h) r) as [a |]; [| discriminate]. simpl. eauto.
Qed.

Lemma set_y_write (h h' : heap) (r : ref) (c : R) :
  Vector2D.set_y r c h = Some (tt, h') ->
  exists a, write_array r a h = Some (tt, h').
Proof.
  unfold Vector2D.set_y, and_then, read_array.
  destruct (nth_error (arrays h) r) as [a |]; [| discriminate]. simpl. eauto.
Qed.

(** A kinematics whose two vectors were allocated after the heap [h0] sees
    no write to a vector of [h0]. *)
Lemma fresh_unchanged (h0 h h' : heap) (k r : ref) (c : R) (obj : kinematics) :
  nth_error (objects h) k = Some obj ->
  length (arrays h0) <= _position obj ->
  length (arrays h0) <= _velocity obj ->
  r < length (arrays h0) ->
  Vector2D.set_x r c h = Some (tt, h') \/ Vector2D.set_y r c h = Some (tt, h') ->
  kinematics_at h' k = kinematics_at h k.
Proof.
  intros Ho Hp Hv Hr [Hw | Hw];
    [apply set_x_write in Hw | apply set_y_write in Hw];
    destruct Hw as [a Hw];
    apply (write_array_kinematics_at h h' r k a obj); try assumption; lia.
Qed.

Lemma set_x_run (h : heap) (r : ref) (c : R) (a : Ideal.ndarray) :
  nth_error (arrays h) r = Some a ->
  exists h',
    Vector2D.set_x r c h = Some (tt, h') /\
    nth_error (arrays h') r = Some (c, snd a) /\
    objects h' = objects h /\
    (forall r', r' <> r -> nth_error (arrays h') r' = nth_error (arrays h) r').
Proof.
  intros Ha. unfold Vector2D.set_x, and_then, read_array, write_array.
  rewrite Ha. simpl.
  destruct (update_Some (arrays h) r (c, snd a) a Ha) as [l Hl]. rewrite Hl. simpl.
  eexists. split; [reflexivity |]. simpl.
  split; [eapply update_same; exact Hl |].
  split; [reflexivity |].
  intros r' Hr. eapply update_other; eassumption.
Qed.

(** *** The constructor copies *)

(** X20.  The constructor copies the two vectors it is given: the new
    kinematics has their values, and assigning afterwards to a component of a
    vector that existed before the call, the two arguments included, changes
    that vector and not the kinematics. *)
Theorem init_copies (h : heap) (position velocity : ref) (o r : R)
                    (pv vv : Ideal.Vector2D.t) :
  vector_at h position = Some pv ->
  vector_at h velocity = Some vv ->
  exists (k : ref) (h' : heap),
    Kinematics.init position o velocity r h = Some (k, h') /\
    kinematics_at h' k = Some (Ideal.Kinematics.init pv o vv r) /\
    (forall (source : ref) (c : R) (h'' : heap),
        source < length (arrays h) ->
        Vector2D.set_x source c h' = Some (tt, h'')
        \/ Vector2D.set_y source c h' = Some (tt, h'') ->
        kinematics_at h'' k = Some (Ideal.Kinematics.init pv o vv r)) /\
    (forall c : R,
        exists h'' : heap,
          Vector2D.set_x position c h' = Some (tt, h'') /\
          vector_at h'' position
          = Some (Ideal.Vector2D.init c (Ideal.Vector2D.y pv))).
Proof.
  intros Hp Hv. apply vector_at_inv in Hp, Hv.
  eexists. eexists.
  split; [apply (run_init h position velocity o r _ _ Hp Hv) |].
  assert (Hk : kinematics_at
                 (mk_heap
                    ((arrays h ++ [(fst (Ideal.Vector2D._array pv),
                                    snd (Ideal.Vector2D._array pv))])
                     ++ [(fst (Ideal.Vector2D._array vv),
                          snd (Ideal.Vector2D._array vv))])
                    (objects h
                     ++ [{| _position := length (arrays h);
                            _orientation := o;
                            _velocity :=
                              length (arrays h
                                      ++ [(fst (Ideal.Vector2D._array pv),
                                           snd (Ideal.Vector2D._array pv))]);
                            _rotation := r |}]))
                 (length (objects h))
               = Some (Ideal.Kinematics.init pv o vv r)).
  { erewrite kinematics_at_intro by solve_read. reflexivity. }
  split; [exact Hk |]. split.
  - intros source c h'' Hsrc Hw. rewrite <- Hk.
    eapply (fresh_unchanged h); try exact Hw; try exact Hsrc.
    + solve_read.
    + simpl. lia.
    + simpl. rewrite length_app. lia.
  - intros c.
    destruct (set_x_run
                (mk_heap
                   ((arrays h ++ [(fst (Ideal.Vector2D._array pv),
                                   snd (Ideal.Vector2D._array pv))])
                    ++ [(fst (Ideal.Vector2D._array vv),
                         snd (Ideal.Vector2D._array vv))])
                   (objects h
                    ++ [{| _position := length (arrays h);
                           _orientation := o;
                           _velocity :=
                             length (arrays h
                                     ++ [(fst (Ideal.Vector2D._array pv),
                                          snd (Ideal.Vector2D._array pv))]);
                           _rotation := r |}]))
                position c (Ideal.Vector2D._array pv))
      as (h'' & Hrun & Hread & _); [solve_read |].
    exists h''. split; [exact Hrun |].
    rewrite (vector_at_intro _ _ _ Hread). reflexivity.
Qed.

(** The constructor on the vectors (1, 2) and (3, 4); then [position.x = 9]. *)
Lemma init_copies_witness :
  exists (k : ref) (h' h'' : heap),
    Kinematics.init 0 5 1 6 (mk_heap [(1, 2); (3, 4)]%R []) = Some (k, h') /\
    Vector2D.set_x 0 9 h' = Some (tt, h'') /\
    kinematics_at h'' k
    = Some (Ideal.Kinematics.init (Ideal.Vector2D.mk (1, 2)%R) 5
                                  (Ideal.Vector2D.mk (3, 4)%R) 6).
Proof.
  destruct (init_copies (mk_heap [(1, 2); (3, 4)]%R []) 0 1 5 6
              (Ideal.Vector2D.mk (1, 2)%R) (Ideal.Vector2D.mk (3, 4)%R)
              eq_refl eq_refl)
    as (k & h' & Hrun & _ & Hind & Hset).
  destruct (Hset 9%R) as (h'' & Hx & _).
  exists k, h', h''. split; [exact Hrun |]. split; [exact Hx |].
  apply (Hind 0 9%R h''); [simpl; lia | left; exact Hx].
Defined.

(** *** The methods on objects compute the values of [Ideal] *)

Ltac run_heap :=
  repeat first
    [ erewrite run_position by solve_read
    | erewrite run_velocity by solve_read
    | erewrite run_orientation by solve_read
    | erewrite run_rotation by solve_read
    | erewrite run_from_copy by solve_read
    | erewrite run_add by solve_read
    | erewrite run_sub by solve_read
    | erewrite run_mul by solve_read
    | erewrite run_rotated by solve_read ];
  try (apply run_init; solve_read).

(** A result made of new arrays does not see later writes to old vectors. *)
Lemma result_unchanged (h0 h : heap) (k : ref) (obj : kinematics)
                       (kv : Ideal.Kinematics.t) :
  kinematics_at h k = Some kv ->
  nth_error (objects h) k = Some obj ->
  length (arrays h0) <= _position obj ->
  length (arrays h0) <= _velocity obj ->
  forall (source : ref) (c : R) (h' : heap),
    source < length (arrays h0) ->
    Vector2D.set_x source c h = Some (tt, h')
    \/ Vector2D.set_y source c h = Some (tt, h') ->
    kinematics_at h' k = Some kv.
Proof.
  intros Hk Ho Hp Hv source c h' Hs Hw. rewrite <- Hk.
  eapply (fresh_unchanged h0); eassumption.
Qed.

(** X21.  [updated] on objects computes the update of [Ideal] for what
    [self] stands for.  It creates a new object and leaves [self] as it was,
    and the new object shares no vector with [self] or with any other object
    that existed: assigning afterwards to a component of an old vector does
    not change it. *)
Theorem updated_refines (h : heap) (self : ref) (dt : R)
                        (kv : Ideal.Kinematics.t) :
  kinematics_at h self = Some kv ->
  exists (k : ref) (h' : heap),
    Kinematics.updated self dt h = Some (k, h') /\
    kinematics_at h' k = Some (Ideal.Kinematics.updated kv dt) /\
    k <> self /\
    kinematics_at h' self = Some kv /\
    (forall (source : ref) (c : R) (h'' : heap),
        source < length (arrays h) ->
        Vector2D.set_x source c h' = Some (tt, h'')
        \/ Vector2D.set_y source c h' = Some (tt, h'') ->
        kinematics_at h'' k = Some (Ideal.Kinematics.updated kv dt)).
Proof.
  intros Hself.
  pose proof Hself as Hold.
  apply kinematics_at_inv in Hself as (obj & Ho & Hp & Hv & Hor & Hro).
  destruct kv as [[pa] o [va] r]. simpl in *. subst o r.
  eexists. eexists.
  split; [unfold Kinematics.updated; run_heap |].
  split; [| split; [| split]].
  - erewrite kinematics_at_intro by solve_read. reflexivity.
  - apply not_eq_sym. eapply nth_error_fresh. exact Ho.
  - erewrite kinematics_at_intro by solve_read. reflexivity.
  - eapply (result_unchanged h).
    + erewrite kinematics_at_intro by solve_read. reflexivity.
    + solve_read.
    + simpl. rewrite !length_app. lia.
    + simpl. rewrite !length_app. lia.
Qed.

(** A body at (1, 2), updated: the result is the update of the value. *)
Lemma updated_refines_witness :
  exists (k : ref) (h' : heap),
    Kinematics.updated 0 2
      (mk_heap [(1, 2); (3, 4)]%R
               [{| _position := 0; _orientation := 5;
                   _velocity := 1; _rotation := 6 |}])
    = Some (k, h') /\
    kinematics_at h' k
    = Some (Ideal.Kinematics.updated
              (Ideal.Kinematics.mk (Ideal.Vector2D.mk (1, 2)%R) 5
                                   (Ideal.Vector2D.mk (3, 4)%R) 6) 2).
Proof.
  destruct (updated_refines
              (mk_heap [(1, 2); (3, 4)]%R
                       [{| _position := 0; _orientation := 5;
                           _velocity := 1; _rotation := 6 |}])
              0 2
              (Ideal.Kinematics.mk (Ideal.Vector2D.mk (1, 2)%R) 5
                                   (Ideal.Vector2D.mk (3, 4)%R) 6)
              eq_refl)
    as (k & h' & Hrun & Hk & _).
  exists k, h'. split; assumption.
Defined.

(** X22.  [+] and [-] on objects compute the composition and the
    decomposition of [Ideal] for what their operands stand for.  Each creates
    a new object, leaves its operands as they were, and the new object shares
    no vector with them. *)
Theorem add_sub_refine (h : heap) (self other : ref)
                       (a b : Ideal.Kinematics.t) :
  kinematics_at h self = Some a ->
  kinematics_at h other = Some b ->
  (exists (k : ref) (h' : heap),
      Kinematics.add self other h = Some (k, h') /\
      kinematics_at h' k = Some (Ideal.Kinematics.add a b) /\
      kinematics_at h' self = Some a /\
      kinematics_at h' other = Some b /\
      (forall (source : ref) (c : R) (h'' : heap),
          source < length (arrays h) ->
          Vector2D.set_x source c h' = Some (tt, h'')
          \/ Vector2D.set_y source c h' = Some (tt, h'') ->
          kinematics_at h'' k = Some (Ideal.Kinematics.add a b))) /\
  (exists (k : ref) (h' : heap),
      Kinematics.sub self other h = Some (k, h') /\
      kinematics_at h' k = Some (Ideal.Kinematics.sub a b) /\
      kinematics_at h' self = Some a /\
      kinematics_at h' other = Some b /\
      (forall (source : ref) (c : R) (h'' : heap),
          source < length (arrays h) ->
          Vector2D.set_x source c h' = Some (tt, h'')
          \/ Vector2D.set_y source c h' = Some (tt, h'') ->
          kinematics_at h'' k = Some (Ideal.Kinematics.sub a b))).
Proof.
  intros Hself Hother.
  apply kinematics_at_inv in Hself as (sobj & Hso & Hsp & Hsv & Hsor & Hsro).
  apply kinematics_at_inv in Hother as (oobj & Hoo & Hop & Hov & Hoor & Horo).
  destruct a as [[pa] oa [va] ra], b as [[pb] ob [vb] rb]. simpl in *.
  subst oa ra ob rb.
  split.
  - eexists. eexists.
    split; [unfold Kinematics.add; run_heap |].
    split; [| split; [| split]].
    + erewrite kinematics_at_intro by solve_read. reflexivity.
    + erewrite kinematics_at_intro by solve_read. reflexivity.
    + erewrite kinematics_at_intro by solve_read. reflexivity.
    + eapply (result_unchanged h).
      * erewrite kinematics_at_intro by solve_read. reflexivity.
      * solve_read.
      * simpl. rewrite !length_app. lia.
      * simpl. rewrite !length_app. lia.
  - eexists. eexists.
    split; [unfold Kinematics.sub; run_heap |].
    split; [| split; [| split]].
    + erewrite kinematics_at_intro by solve_read. reflexivity.
    + erewrite kinematics_at_intro by solve_read. reflexivity.
    + erewrite kinematics_at_intro by solve_read. reflexivity.
    + eapply (result_unchanged h).
      * erewrite kinematics_at_intro by solve_read. reflexivity.
      * solve_read.
      * simpl. rewrite !length_app. lia.
      * simpl. rewrite !length_app. lia.
Qed.

(** Two kinematics composed: the result is the composition of the values. *)
Lemma add_sub_refine_witness :
  exists (k : ref) (h' : heap),
    Kinematics.add 0 1
      (mk_heap [(1, 2); (3, 4); (5, 6); (7, 8)]%R
               [{| _position := 0; _orientation := 1;
                   _velocity := 1; _rotation := 2 |};
                {| _position := 2; _orientation := 3;
                   _velocity := 3; _rotation := 4 |}])
    = Some (k, h') /\
    kinematics_at h' k
    = Some (Ideal.Kinematics.add
              (Ideal.Kinematics.mk (Ideal.Vector2D.mk (1, 2)%R) 1
                                   (Ideal.Vector2D.mk (3, 4)%R) 2)
              (Ideal.Kinematics.mk (Ideal.Vector2D.mk (5, 6)%R) 3
                                   (Ideal.Vector2D.mk (7, 8)%R) 4)).
Proof.
  destruct (add_sub_refine
              (mk_heap [(1, 2); (3, 4); (5, 6); (7, 8)]%R
                       [{| _position := 0; _orientation := 1;
                           _velocity := 1; _rotation := 2 |};
                        {| _position := 2; _orientation := 3;
                           _velocity := 3; _rotation := 4 |}])
              0 1
              (Ideal.Kinematics.mk (Ideal.Vector2D.mk (1, 2)%R) 1
                                   (Ideal.Vector2D.mk (3, 4)%R) 2)
              (Ideal.Kinematics.mk (Ideal.Vector2D.mk (5, 6)%R) 3
                                   (Ideal.Vector2D.mk (7, 8)%R) 4)
              eq_refl eq_refl)
    as [(k & h' & Hrun & Hk & _) _].
  exists k, h'. split; assumption.
Defined.

(** *** Shared references *)

Lemma set_position_run (h : heap) (k p : ref) (obj : kinematics) :
  nth_error (objects h) k = Some obj ->
  exists h',
    Kinematics.set_position k p h = Some (tt, h') /\
    arrays h' = arrays h /\
    nth_error (objects h') k
    = Some {| _position := p; _orientation := _orientation obj;
              _velocity := _velocity obj; _rotation := _rotation obj |}.
Proof.
  intros Ho. unfold Kinematics.set_position, and_then, read_object, write_object.
  rewrite Ho. simpl.
  destruct (update_Some (objects h) k
              {| _position := p; _orientation := _orientation obj;
                 _velocity := _velocity obj; _rotation := _rotation obj |} obj Ho)
    as [l Hl].
  rewrite Hl. simpl. eexists. split; [reflexivity |]. simpl.
  split; [reflexivity |]. eapply update_same. exact Hl.
Qed.

(** After [r.x = c], a kinematics whose position is the vector [r] has the
    new component. *)
Lemma set_x_position (h : heap) (k r : ref) (c : R) (obj : kinematics)
                     (a v : Ideal.ndarray) :
  nth_error (objects h) k = Some obj ->
  _position obj = r ->
  nth_error (arrays h) r = Some a ->
  nth_error (arrays h) (_velocity obj) = Some v ->
  exists h',
    Vector2D.set_x r c h = Some (tt, h') /\
    option_map Ideal.Kinematics.position (kinematics_at h' k)
    = Some (Ideal.Vector2D.init c (snd a)).
Proof.
  intros Ho Hp Ha Hv.
  destruct (set_x_run h r c a Ha) as (h' & Hrun & Hread & Hobj & Hother).
  exists h'. split; [exact Hrun |].
  assert (Hv' : exists v', nth_error (arrays h') (_velocity obj) = Some v').
  { destruct (Nat.eq_dec (_velocity obj) r) as [-> | Hne]; [eauto |].
    rewrite (Hother _ Hne). eauto. }
  destruct Hv' as [v' Hv'].
  rewrite <- Hobj in Ho. rewrite <- Hp in Hread.
  rewrite (kinematics_at_intro h' k obj _ _ Ho Hread Hv'). reflexivity.
Qed.

(** X23.  The getter and the setter of the position work on references.
    The getter returns the vector the kinematics holds, not a copy: assigning
    to a component of the returned vector changes the position of the
    kinematics.  The setter stores the vector it is given, not a copy:
    assigning afterwards to a component of that vector changes the position
    of the kinematics. *)
Theorem position_shared (h : heap) (k p : ref) (c : R)
                        (kv : Ideal.Kinematics.t) (pv : Ideal.Vector2D.t) :
  kinematics_at h k = Some kv ->
  vector_at h p = Some pv ->
  (exists (q : ref) (h' : heap),
      Kinematics.position k h = Some (q, h) /\
      vector_at h q = Some (Ideal.Kinematics.position kv) /\
      Vector2D.set_x q c h = Some (tt, h') /\
      option_map Ideal.Kinematics.position (kinematics_at h' k)
      = Some (Ideal.Vector2D.init c
                (Ideal.Vector2D.y (Ideal.Kinematics.position kv)))) /\
  (exists h1 h2 : heap,
      Kinematics.set_position k p h = Some (tt, h1) /\
      Kinematics.position k h1 = Some (p, h1) /\
      option_map Ideal.Kinematics.position (kinematics_at h1 k) = Some pv /\
      Vector2D.set_x p c h1 = Some (tt, h2) /\
      option_map Ideal.Kinematics.position (kinematics_at h2 k)
      = Some (Ideal.Vector2D.init c (Ideal.Vector2D.y pv))).
Proof.
  intros Hk Hp.
  apply kinematics_at_inv in Hk as (obj & Ho & Hop & Hov & Hor & Hro).
  apply vector_at_inv in Hp.
  split.
  - destruct (set_x_position h k (_position obj) c obj _ _ Ho eq_refl Hop Hov)
      as (h' & Hrun & Hpos).
    exists (_position obj), h'.
    split; [unfold Kinematics.position, and_then, read_object, ret;
            rewrite Ho; reflexivity |].
    split; [rewrite (vector_at_intro _ _ _ Hop); destruct kv as [[pa] o [va] r];
            reflexivity |].
    split; [exact Hrun | exact Hpos].
  - destruct (set_position_run h k p obj Ho) as (h1 & Hset & Harr & Hobj1).
    rewrite <- Harr in Hp, Hov.
    destruct (set_x_position h1 k p c _ _ _ Hobj1 eq_refl Hp Hov)
      as (h2 & Hrun & Hpos).
    exists h1, h2.
    split; [exact Hset |].
    split; [unfold Kinematics.position, and_then, read_object, ret;
            rewrite Hobj1; reflexivity |].
    split; [rewrite (kinematics_at_intro h1 k _ _ _ Hobj1 Hp Hov);
            destruct pv as [pa]; reflexivity |].
    split; [exact Hrun | exact Hpos].
Qed.

(** A kinematics at (1, 2) and a vector (7, 8): after [k.position = p] and
    [p.x = 9] the position of [k] is (9, 8). *)
Lemma position_shared_witness :
  exists h1 h2 : heap,
    Kinematics.set_position 0 2
      (mk_heap [(1, 2); (3, 4); (7, 8)]%R
               [{| _position := 0; _orientation := 5;
                   _velocity := 1; _rotation := 6 |}])
    = Some (tt, h1) /\
    Vector2D.set_x 2 9 h1 = Some (tt, h2) /\
    option_map Ideal.Kinematics.position (kinematics_at h2 0)
    = Some (Ideal.Vector2D.init 9 8).
Proof.
  destruct (position_shared
              (mk_heap [(1, 2); (3, 4); (7, 8)]%R
                       [{| _position := 0; _orientation := 5;
                           _velocity := 1; _rotation := 6 |}])
              0 2 9
              (Ideal.Kinematics.mk (Ideal.Vector2D.mk (1, 2)%R) 5
                                   (Ideal.Vector2D.mk (3, 4)%R) 6)
              (Ideal.Vector2D.mk (7, 8)%R) eq_refl eq_refl)
    as (_ & h1 & h2 & Hset & _ & _ & Hx & Hpos).
  exists h1, h2. repeat split; assumption.
Defined.

(** *** Copies *)

(** X24.  [from_copy] makes a deep copy: a new object that stands for the
    same value as the source and shares no vector with it.  Assigning to a
    component of a vector of the copy does not change the source, and
    assigning to a component of an old vector does not change the copy. *)
Theorem from_copy_deep (h : heap) (source : ref) (kv : Ideal.Kinematics.t) :
  kinematics_at h source = Some kv ->
  exists (k : ref) (h' : heap),
    Kinematics.from_copy source h = Some (k, h') /\
    kinematics_at h' k = Some (Ideal.Kinematics.from_copy kv) /\
    Ideal.Kinematics.from_copy kv = kv /\
    k <> source /\
    kinematics_at h' source = Some kv /\
    (forall (old : ref) (c : R) (h'' : heap),
        old < length (arrays h) ->
        Vector2D.set_x old c h' = Some (tt, h'')
        \/ Vector2D.set_y old c h' = Some (tt, h'') ->
        kinematics_at h'' k = Some (Ideal.Kinematics.from_copy kv)) /\
    (forall (p : ref) (c : R) (h'' : heap),
        Kinematics.position k h' = Some (p, h')
        \/ Kinematics.velocity k h' = Some (p, h') ->
        Vector2D.set_x p c h' = Some (tt, h'')
        \/ Vector2D.set_y p c h' = Some (tt, h'') ->
        kinematics_at h'' source = Some kv).
Proof.
  intros Hsource.
  apply kinematics_at_inv in Hsource as (obj & Ho & Hp & Hv & Hor & Hro).
  destruct kv as [[pa] o [va] r]. simpl in *. subst o r.
  assert (Hpl : _position obj < length (arrays h))
    by (apply nth_error_Some; congruence).
  assert (Hvl : _velocity obj < length (arrays h))
    by (apply nth_error_Some; congruence).
  eexists. eexists.
  split; [unfold Kinematics.from_copy; run_heap |].
  split; [| split; [| split; [| split; [| split]]]].
  - erewrite kinematics_at_intro by solve_read. reflexivity.
  - destruct pa, va. reflexivity.
  - apply not_eq_sym. eapply nth_error_fresh. exact Ho.
  - erewrite kinematics_at_intro by solve_read. reflexivity.
  - eapply (result_unchanged h).
    + erewrite kinematics_at_intro by solve_read. reflexivity.
    + solve_read.
    + simpl. rewrite !length_app. lia.
    + simpl. rewrite !length_app. lia.
  - intros p c h'' Hget Hw.
    assert (Hfresh : length (arrays h) <= p).
    { unfold Kinematics.position, Kinematics.velocity, and_then, read_object, ret
        in Hget. simpl in Hget.
      rewrite nth_error_length in Hget. simpl in Hget.
      destruct Hget as [Hget | Hget]; injection Hget as <-;
        rewrite !length_app; lia. }
    destruct Hw as [Hw | Hw];
      [apply set_x_write in Hw | apply set_y_write in Hw];
      destruct Hw as [a Hwrite];
      (erewrite (write_array_kinematics_at _ h'' p source a obj Hwrite);
       [| solve_read | lia | lia]);
      (erewrite kinematics_at_intro by solve_read); reflexivity.
Qed.

(** A kinematics at (1, 2) copied. *)
Lemma from_copy_deep_witness :
  exists (k : ref) (h' : heap),
    Kinematics.from_copy 0
      (mk_heap [(1, 2); (3, 4)]%R
               [{| _position := 0; _orientation := 5;
                   _velocity := 1; _rotation := 6 |}])
    = Some (k, h') /\
    k <> 0.
Proof.
  destruct (from_copy_deep
              (mk_heap [(1, 2); (3, 4)]%R
                       [{| _position := 0; _orientation := 5;
                           _velocity := 1; _rotation := 6 |}])
              0
              (Ideal.Kinematics.mk (Ideal.Vector2D.mk (1, 2)%R) 5
                                   (Ideal.Vector2D.mk (3, 4)%R) 6)
              eq_refl)
    as (k & h' & Hrun & _ & _ & Hne & _).
  exists k, h'. split; assumption.
Defined.

End HeapFacts.
